(** * LibraryAPI: the record store, the update handler and the Pages codec

    A shallow embedding of the Go sources of the book catalogue service
    (package [data]: [BookModel], [Pages], [ValidateBook]; package [main]:
    [updateBookHandler], [readID]) together with the parts of Go's
    [strconv], [strings] and [unicode/utf8] packages and of the PostgreSQL
    statements that those sources call.

    Go strings are byte strings: they are modelled by [string], whose
    characters ([ascii]) are exactly the 256 byte values.  Go integers are
    modelled by [Z], with the width of the Go type written out where the
    code depends on it. *)

From Stdlib Require Import ZArith List String Ascii Lia Bool.
From stdpp Require Import gmap strings list sorting.

Local Open Scope string_scope.
Local Open Scope Z_scope.

(** ** Machine integers *)

Module GoInt.

Definition MinInt32 : Z := -2147483648.
Definition MaxInt32 : Z := 2147483647.
Definition MinInt64 : Z := -9223372036854775808.
Definition MaxInt64 : Z := 9223372036854775807.
Definition MaxUint64 : Z := 18446744073709551615.

Definition is_int32 (z : Z) : bool := (MinInt32 <=? z) && (z <=? MaxInt32).
Definition is_int64 (z : Z) : bool := (MinInt64 <=? z) && (z <=? MaxInt64).

(** Two's complement wrap-around of the 32- and 64-bit signed types and
    of [uint64]. *)
Definition wrap32 (z : Z) : Z := (z + 2147483648) mod 4294967296 - 2147483648.
Definition wrap64 (z : Z) : Z :=
  (z + 9223372036854775808) mod 18446744073709551616 - 9223372036854775808.
Definition wrapU64 (z : Z) : Z := z mod 18446744073709551616.

End GoInt.

(** ** Bytes and strings *)

Definition byte (c : ascii) : Z := Z.of_N (N_of_ascii c).
Definition chr (z : Z) : ascii := ascii_of_N (Z.to_N z).

Definition len (s : string) : Z := Z.of_nat (String.length s).

(** The bytes 0x22, 0x27, 0x5C and 0x60, which delimit and escape Go string
    literals. *)
Definition dquote : ascii := Eval cbv in ascii_of_N 34.
Definition squote : ascii := Eval cbv in ascii_of_N 39.
Definition backslash : ascii := Eval cbv in ascii_of_N 92.
Definition backquote : ascii := Eval cbv in ascii_of_N 96.

Fixpoint contains (s : string) (c : ascii) : bool :=
  match s with
  | EmptyString => false
  | String a s' => Ascii.eqb a c || contains s' c
  end.

(** [strings.HasPrefix] and [strings.TrimPrefix]. *)
Definition HasPrefix (s p : string) : bool := String.prefix p s.
Definition TrimPrefix (s p : string) : string :=
  if HasPrefix s p
  then String.substring (String.length p) (String.length s - String.length p) s
  else s.

(** [strings.Split(s, sep)] for a separator of one byte, the only form the
    sources use ([strings.Split(unquotedJsVal, " ")]): the pieces between
    the occurrences of the separator, one more piece than occurrences. *)
Fixpoint Split (s : string) (sep : ascii) : list string :=
  match s with
  | EmptyString => [EmptyString]
  | String a s' =>
      if Ascii.eqb a sep then EmptyString :: Split s' sep
      else match Split s' sep with
           | piece :: rest => String a piece :: rest
           | [] => [String a EmptyString]
           end
  end.

(** ** unicode/utf8 *)

Module utf8.

Definition RuneError : Z := 65533.   (* U+FFFD *)
Definition RuneSelf : Z := 128.
Definition MaxRune : Z := 1114111.   (* U+10FFFF *)
Definition surrogateMin : Z := 55296.  (* U+D800 *)
Definition surrogateMax : Z := 57343.  (* U+DFFF *)

Definition ValidRune (r : Z) : bool :=
  ((0 <=? r) && (r <? surrogateMin)) || ((surrogateMax <? r) && (r <=? MaxRune)).

Definition is_cont (b : Z) : bool := (128 <=? b) && (b <=? 191).
Definition between (lo b hi : Z) : bool := (lo <=? b) && (b <=? hi).

(** [utf8.DecodeRuneInString]: the first rune of [s] and its width in
    bytes; [(RuneError, 0)] on the empty string and [(RuneError, 1)] on
    an invalid or truncated encoding.  The accepted ranges of the second
    byte are those of the package's [acceptRanges] table. *)
Definition DecodeRuneInString (s : string) : Z * Z :=
  match s with
  | EmptyString => (RuneError, 0)
  | String c0 s1 =>
    let b0 := byte c0 in
    if b0 <? 128 then (b0, 1)
    else if between 194 b0 223 then
      match s1 with
      | String c1 _ =>
          let b1 := byte c1 in
          if is_cont b1 then (Z.lor (Z.shiftl (Z.land b0 31) 6) (Z.land b1 63), 2)
          else (RuneError, 1)
      | _ => (RuneError, 1)
      end
    else if between 224 b0 239 then
      match s1 with
      | String c1 (String c2 _) =>
          let b1 := byte c1 in
          let b2 := byte c2 in
          let lo := if b0 =? 224 then 160 else 128 in
          let hi := if b0 =? 237 then 159 else 191 in
          if between lo b1 hi && is_cont b2 then
            (Z.lor (Z.lor (Z.shiftl (Z.land b0 15) 12)
                          (Z.shiftl (Z.land b1 63) 6))
                   (Z.land b2 63), 3)
          else (RuneError, 1)
      | _ => (RuneError, 1)
      end
    else if between 240 b0 244 then
      match s1 with
      | String c1 (String c2 (String c3 _)) =>
          let b1 := byte c1 in
          let b2 := byte c2 in
          let b3 := byte c3 in
          let lo := if b0 =? 240 then 144 else 128 in
          let hi := if b0 =? 244 then 143 else 191 in
          if between lo b1 hi && is_cont b2 && is_cont b3 then
            (Z.lor (Z.lor (Z.lor (Z.shiftl (Z.land b0 7) 18)
                                 (Z.shiftl (Z.land b1 63) 12))
                          (Z.shiftl (Z.land b2 63) 6))
                   (Z.land b3 63), 4)
          else (RuneError, 1)
      | _ => (RuneError, 1)
      end
    else (RuneError, 1)
  end.

(** Drop the first [n] bytes: the Go slice [s[n:]]. *)
Fixpoint drop_bytes (n : nat) (s : string) : string :=
  match n, s with
  | O, _ => s
  | S n', String _ s' => drop_bytes n' s'
  | S _, EmptyString => EmptyString
  end.

(** [utf8.ValidString]: every byte belongs to a well-formed encoding. *)
Fixpoint valid_from (fuel : nat) (s : string) : bool :=
  match s with
  | EmptyString => true
  | String _ _ =>
      match fuel with
      | O => false
      | S fuel' =>
          let '(r, n) := DecodeRuneInString s in
          if (r =? RuneError) && (n =? 1) then false
          else valid_from fuel' (drop_bytes (Z.to_nat n) s)
      end
  end.

Definition ValidString (s : string) : bool := valid_from (String.length s) s.

(** [utf8.AppendRune]: the UTF-8 encoding of [r]; an invalid rune is
    written as the encoding of [RuneError]. *)
Definition EncodeRune (r : Z) : string :=
  if between 0 r 127 then String (chr r) EmptyString
  else if between 128 r 2047 then
    String (chr (Z.lor 192 (Z.shiftr r 6)))
      (String (chr (Z.lor 128 (Z.land r 63))) EmptyString)
  else if negb (ValidRune r) then
    String (chr 239) (String (chr 191) (String (chr 189) EmptyString))
  else if r <=? 65535 then
    String (chr (Z.lor 224 (Z.shiftr r 12)))
      (String (chr (Z.lor 128 (Z.land (Z.shiftr r 6) 63)))
         (String (chr (Z.lor 128 (Z.land r 63))) EmptyString))
  else
    String (chr (Z.lor 240 (Z.shiftr r 18)))
      (String (chr (Z.lor 128 (Z.land (Z.shiftr r 12) 63)))
         (String (chr (Z.lor 128 (Z.land (Z.shiftr r 6) 63)))
            (String (chr (Z.lor 128 (Z.land r 63))) EmptyString))).

End utf8.

(** ** strconv *)

(** The tables [isPrint16], [isNotPrint16], [isPrint32] and [isNotPrint32]
    that [strconv.IsPrint] searches for runes above U+00FF are data of the
    Go distribution; they are taken as a parameter. *)
Class UnicodeTables := { in_print_tables : Z -> bool }.

Module strconv.

Inductive NumError := ErrSyntax | ErrRange.

(** *** Formatting *)

(** The digit loop of [formatBits] in base 10: the digits of [u], least
    significant first, pushed in front of [acc].  Twenty digits are
    enough for a [uint64]. *)
Fixpoint format_digits (fuel : nat) (u : Z) (acc : string) : string :=
  match fuel with
  | O => acc
  | S fuel' =>
      let acc' := String (chr (48 + u mod 10)) acc in
      if u <? 10 then acc' else format_digits fuel' (u / 10) acc'
  end.

Definition FormatUint (u : Z) : string := format_digits 20 u EmptyString.

(** [strconv.FormatInt(i, 10)], which is also what [fmt]'s verb [%d]
    prints for an [int64]. *)
Definition FormatInt (i : Z) : string :=
  if i <? 0 then String "-" (FormatUint (- i)) else FormatUint i.

(** *** Parsing *)

Definition lower (b : Z) : Z := Z.lor b 32.

(** The loop of [ParseUint(s, 10, 64)] over the bytes of [s], with the
    accumulator [n]. *)
Fixpoint parse_digits (s : string) (n : Z) : NumError + Z :=
  match s with
  | EmptyString => inr n
  | String c s' =>
      let b := byte c in
      let d := if (48 <=? b) && (b <=? 57) then Some (b - 48)
               else if (97 <=? lower b) && (lower b <=? 122)
                    then Some (lower b - 97 + 10)
                    else None in
      match d with
      | None => inl ErrSyntax
      | Some d =>
          if 10 <=? d then inl ErrSyntax
          else if GoInt.MaxUint64 / 10 + 1 <=? n then inl ErrRange
          else
            let n10 := GoInt.wrapU64 (n * 10) in
            let n1 := GoInt.wrapU64 (n10 + d) in
            if (n1 <? n10) || (GoInt.MaxUint64 <? n1) then inl ErrRange
            else parse_digits s' n1
      end
  end.

Definition ParseUint (s : string) : NumError + Z :=
  match s with
  | EmptyString => inl ErrSyntax
  | _ => parse_digits s 0
  end.

(** [strconv.ParseInt(s, 10, 64)].  A range error of [ParseUint] is
    reported as a range error here after the sign has been taken into
    account; the value that Go returns beside a non-nil error is not
    modelled, no caller in the sources reads it. *)
Definition ParseInt (s : string) : NumError + Z :=
  match s with
  | EmptyString => inl ErrSyntax
  | String c rest =>
      let neg := Ascii.eqb c "-" in
      let digits := if Ascii.eqb c "+" || neg then rest else s in
      match ParseUint digits with
      | inl ErrSyntax => inl ErrSyntax
      | inl ErrRange => inl ErrRange
      | inr un =>
          let cutoff := 9223372036854775808 in
          if negb neg && (cutoff <=? un) then inl ErrRange
          else if neg && (cutoff <? un) then inl ErrRange
          else inr (if neg then - un else un)
      end
  end.

(** *** Quoting *)

Definition lowerhex (d : Z) : ascii :=
  if d <? 10 then chr (48 + d) else chr (97 + d - 10).

Fixpoint hex_digits (k : nat) (r : Z) : string :=
  match k with
  | O => EmptyString
  | S k' => String (lowerhex (Z.land (Z.shiftr r (4 * Z.of_nat k')) 15))
                   (hex_digits k' r)
  end.

Definition IsPrint `{UnicodeTables} (r : Z) : bool :=
  if r <=? 255 then
    if (32 <=? r) && (r <=? 126) then true
    else if (161 <=? r) && (r <=? 255) then negb (r =? 173)
    else false
  else in_print_tables r.

(** [appendEscapedRune] for the double quote, with [ASCIIonly] and
    [graphicOnly] both false. *)
Definition appendEscapedRune `{UnicodeTables} (r : Z) : string :=
  if (r =? 34) || (r =? 92) then String backslash (String (chr r) EmptyString)
  else if IsPrint r then utf8.EncodeRune r
  else if r =? 7 then String backslash "a"
  else if r =? 8 then String backslash "b"
  else if r =? 12 then String backslash "f"
  else if r =? 10 then String backslash "n"
  else if r =? 13 then String backslash "r"
  else if r =? 9 then String backslash "t"
  else if r =? 11 then String backslash "v"
  else if (r <? 32) || (r =? 127) then
    String backslash (String "x" (hex_digits 2 r))
  else if negb (utf8.ValidRune r) then
    String backslash (String "u" (hex_digits 4 utf8.RuneError))
  else if r <? 65536 then
    String backslash (String "u" (hex_digits 4 r))
  else
    String backslash (String "U" (hex_digits 8 r)).

(** The loop of [appendQuotedWith]: one rune of [s] per iteration. *)
Fixpoint quote_from `{UnicodeTables} (fuel : nat) (s : string) : string :=
  match s with
  | EmptyString => EmptyString
  | String c _ =>
      match fuel with
      | O => EmptyString
      | S fuel' =>
          let '(r, width) :=
            if utf8.RuneSelf <=? byte c then utf8.DecodeRuneInString s
            else (byte c, 1) in
          let piece :=
            if (width =? 1) && (r =? utf8.RuneError)
            then String backslash (String "x" (hex_digits 2 (byte c)))
            else appendEscapedRune r in
          piece ++ quote_from fuel' (utf8.drop_bytes (Z.to_nat width) s)
      end
  end.

(** [strconv.Quote]. *)
Definition Quote `{UnicodeTables} (s : string) : string :=
  String dquote (quote_from (String.length s) s ++ String dquote EmptyString).

(** *** Unquoting *)

Definition unhex (b : Z) : option Z :=
  if (48 <=? b) && (b <=? 57) then Some (b - 48)
  else if (97 <=? b) && (b <=? 102) then Some (b - 97 + 10)
  else if (65 <=? b) && (b <=? 70) then Some (b - 65 + 10)
  else None.

(** The digits of a [\x], [\u] or [\U] escape, accumulated in a [rune]
    (an [int32]). *)
Fixpoint read_hex (n : nat) (s : string) (v : Z) : option (Z * string) :=
  match n with
  | O => Some (v, s)
  | S n' =>
      match s with
      | EmptyString => None
      | String c s' =>
          match unhex (byte c) with
          | None => None
          | Some x => read_hex n' s' (GoInt.wrap32 (Z.lor (Z.shiftl v 4) x))
          end
      end
  end.

(** The two digits that follow the first one of an octal escape. *)
Fixpoint read_octal (n : nat) (s : string) (v : Z) : option (Z * string) :=
  match n with
  | O => Some (v, s)
  | S n' =>
      match s with
      | EmptyString => None
      | String c s' =>
          let x := byte c - 48 in
          if (x <? 0) || (7 <? x) then None
          else read_octal n' s' (Z.lor (Z.shiftl v 3) x)
      end
  end.

(** [strconv.UnquoteChar(s, quote)]: the value of the first character or
    escape sequence of [s], whether it is a multibyte rune, and the rest
    of [s]; [None] is [ErrSyntax]. *)
Definition UnquoteChar (s : string) (quote : ascii) : option (Z * bool * string) :=
  match s with
  | EmptyString => None
  | String c rest =>
      if Ascii.eqb c quote && (Ascii.eqb quote squote || Ascii.eqb quote dquote)
      then None
      else if utf8.RuneSelf <=? byte c then
        let '(r, size) := utf8.DecodeRuneInString s in
        Some (r, true, utf8.drop_bytes (Z.to_nat size) s)
      else if negb (Ascii.eqb c backslash) then Some (byte c, false, rest)
      else
        match rest with
        | EmptyString => None
        | String e s2 =>
            let b := byte e in
            if b =? 97 then Some (7, false, s2)          (* \a *)
            else if b =? 98 then Some (8, false, s2)     (* \b *)
            else if b =? 102 then Some (12, false, s2)   (* \f *)
            else if b =? 110 then Some (10, false, s2)   (* \n *)
            else if b =? 114 then Some (13, false, s2)   (* \r *)
            else if b =? 116 then Some (9, false, s2)    (* \t *)
            else if b =? 118 then Some (11, false, s2)   (* \v *)
            else if (b =? 120) || (b =? 117) || (b =? 85) then   (* \x \u \U *)
              let n := if b =? 120 then 2%nat
                       else if b =? 117 then 4%nat else 8%nat in
              match read_hex n s2 0 with
              | None => None
              | Some (v, s3) =>
                  if b =? 120 then Some (v, false, s3)
                  else if utf8.ValidRune v then Some (v, true, s3)
                  else None
              end
            else if (48 <=? b) && (b <=? 55) then
              match read_octal 2 s2 (b - 48) with
              | None => None
              | Some (v, s3) => if 255 <? v then None else Some (v, false, s3)
              end
            else if b =? 92 then Some (92, false, s2)
            else if (b =? 39) || (b =? 34) then
              if Ascii.eqb e quote then Some (b, false, s2) else None
            else None
        end
  end.

(** Position of the first occurrence of [c] in [s]: [strings.IndexByte]. *)
Fixpoint index (s : string) (c : ascii) : option nat :=
  match s with
  | EmptyString => None
  | String a s' =>
      if Ascii.eqb a c then Some O
      else match index s' c with Some i => Some (S i) | None => None end
  end.

Fixpoint take_bytes (n : nat) (s : string) : string :=
  match n, s with
  | S n', String a s' => String a (take_bytes n' s')
  | _, _ => EmptyString
  end.

Fixpoint without_cr (s : string) : string :=
  match s with
  | EmptyString => EmptyString
  | String a s' => if byte a =? 13 then without_cr s' else String a (without_cr s')
  end.

Inductive loop_result :=
| LoopExit (buf rest : string)
| LoopSyntax
| LoopFuel.

(** The loop of [unquote] over a literal with escape sequences: [s] is
    the input after the opening quote, [buf] the bytes decoded so far.
    Every iteration consumes at least one byte of [s], so a [fuel] of
    the length of [s] is never used up ([unquote_loop_fuel] below). *)
Fixpoint unquote_loop (fuel : nat) (quote : ascii) (s buf : string) : loop_result :=
  match s with
  | EmptyString => LoopExit buf s
  | String c _ =>
      if Ascii.eqb c quote then LoopExit buf s
      else
        match fuel with
        | O => LoopFuel
        | S fuel' =>
            match UnquoteChar s quote with
            | None => LoopSyntax
            | Some (r, multibyte, rem) =>
                if byte c =? 10 then LoopSyntax
                else
                  let buf' :=
                    buf ++ (if (r <? utf8.RuneSelf) || negb multibyte
                            then String (chr r) EmptyString
                            else utf8.EncodeRune r) in
                  if Ascii.eqb quote squote then LoopExit buf' rem
                  else unquote_loop fuel' quote rem buf'
            end
        end
  end.

(** [unquote(in, true)]: the unquoted prefix literal of [s] and what
    follows it. *)
Definition unquote (s : string) : option (string * string) :=
  match s with
  | String quote (String _ _ as s1) =>
      match index s1 quote with
      | None => None
      | Some i =>
          let body := take_bytes i s1 in
          let after := utf8.drop_bytes (S i) s1 in
          if Ascii.eqb quote backquote then Some (without_cr body, after)
          else if Ascii.eqb quote dquote || Ascii.eqb quote squote then
            let plain := negb (contains body backslash) && negb (contains body (chr 10)) in
            let valid :=
              if Ascii.eqb quote dquote then utf8.ValidString body
              else let '(r, n) := utf8.DecodeRuneInString body in
                   (n =? len body) && negb ((r =? utf8.RuneError) && (n =? 1)) in
            if plain && valid then Some (body, after)
            else
              match unquote_loop (String.length s1) quote s1 EmptyString with
              | LoopExit buf (String c rest) =>
                  if Ascii.eqb c quote then Some (buf, rest) else None
              | _ => None
              end
          else None
      end
  | _ => None
  end.

(** [strconv.Unquote]: nothing may follow the literal. *)
Definition Unquote (s : string) : option string :=
  match unquote s with
  | Some (out, EmptyString) => Some out
  | _ => None
  end.

End strconv.

(** ** The Pages scalar (package data) *)

(** What [database/sql] and the driver report: [sql.ErrNoRows], an error
    of the server with its SQLSTATE, or a failure of the driver itself
    (connection lost, context deadline exceeded, ...). *)
Inductive SqlError :=
| sql_ErrNoRows
| pq_Error (sqlstate : string)
| driver_failure (msg : string).

(** What can go wrong with one round trip to the server, each method
    running under a context with a deadline of three seconds.  Either the
    driver fails before the server has run the statement ([refused]: no
    connection, the deadline passed while waiting for one), or the server
    runs the statement and the call fails all the same ([reply_lost]: the
    deadline passes or the connection breaks while the reply is awaited,
    so that [Next] reports the error, or the connection breaks while the
    result is closed, after [Scan] has copied the returned row into its
    destinations: [Row.Scan] ends in [return r.rows.Close()]; [scanned]
    tells which).  The caller sees the same kind of error in all cases. *)
Inductive Fault :=
| refused (msg : string)
| reply_lost (msg : string) (scanned : bool).

(** The statement ran although the call failed. *)
Definition lost (fault : option Fault) : bool :=
  match fault with
  | Some (reply_lost _ _) => true
  | _ => false
  end.

(** The values of Go's [error] that package data returns: its own three
    sentinels, and any error of the store passed on unchanged. *)
Inductive error :=
| ErrRecordNotFound
| ErrEditConflict
| ErrInvalidCountPagesFormat
| ErrStore (e : SqlError).

(** [fmt.Sprintf("%d pages", p)]. *)
Definition Sprintf_d_pages (p : Z) : string := strconv.FormatInt p ++ " pages".

(** [Pages.MarshalJSON]: the JSON bytes; the error result is always nil. *)
Definition MarshalJSON `{UnicodeTables} (p : Z) : string :=
  strconv.Quote (Sprintf_d_pages p).

(** [Pages.UnmarshalJSON]: on success the value stored through the
    receiver, otherwise the error (the receiver is then left untouched). *)
Definition UnmarshalJSON (jsVal : string) : error + Z :=
  match strconv.Unquote jsVal with
  | None => inl ErrInvalidCountPagesFormat
  | Some unquotedJsVal =>
      let parts := Split unquotedJsVal " " in
      if negb (Nat.eqb (List.length parts) 2)
         || negb (String.eqb (nth 1 parts EmptyString) "pages")
      then inl ErrInvalidCountPagesFormat
      else
        match strconv.ParseInt (nth 0 parts EmptyString) with
        | inl _ => inl ErrInvalidCountPagesFormat
        | inr i => inr i
        end
  end.

(** ** The validator (package validator) *)

Module validator.

(** Modelled from the spec: package [validator] is not among the sources.
    Section 4.2: a mapping from field name to error message, an
    is-valid predicate that is true iff the mapping is empty, and an
    add-error operation that is a no-op if the field already has an
    error.  Of the checks the section says that each one is run, that the
    last check for a given field wins if several fail, and that distinct
    fields accumulate independently: [Check] files its message under its
    key when its condition is false, in place of an earlier one. *)
Record Validator := { Errors : gmap string string }.

Definition New : Validator := {| Errors := ∅ |}.

Definition Valid (v : Validator) : bool := bool_decide (Errors v = ∅).

Definition AddError (v : Validator) (key message : string) : Validator :=
  match Errors v !! key with
  | Some _ => v
  | None => {| Errors := <[key := message]> (Errors v) |}
  end.

Definition Check (v : Validator) (ok : bool) (key message : string) : Validator :=
  if ok then v else {| Errors := <[key := message]> (Errors v) |}.

(** Modelled from the spec: [validator.Unique] is not among the sources.
    Section 4.5: the values are pairwise distinct. *)
Fixpoint Unique (values : list string) : bool :=
  match values with
  | [] => true
  | x :: rest => negb (existsb (String.eqb x) rest) && Unique rest
  end.

End validator.

(** ** Books (package data) *)

(** A Go slice of strings: [None] is the nil slice, which differs from
    the empty slice [Some []] in [book.Genres != nil], in [in.Genres != nil]
    and in what [pq.Array] sends (NULL against an empty array). *)
Definition slice_len {A} (s : option (list A)) : Z :=
  match s with
  | None => 0
  | Some l => Z.of_nat (List.length l)
  end.

Definition slice_elems {A} (s : option (list A)) : list A :=
  match s with
  | None => []
  | Some l => l
  end.

Record Book := {
  ID : Z;                       (* int64 *)
  Created : Z;                  (* time.Time, as seconds *)
  Title : string;
  Year : Z;                     (* int32 *)
  Pages : Z;                    (* Pages, an int64 *)
  Genres : option (list string);
  Version : Z                   (* int32 *)
}.

Definition set_Version (b : Book) (v : Z) : Book :=
  {| ID := ID b; Created := Created b; Title := Title b; Year := Year b;
     Pages := Pages b; Genres := Genres b; Version := v |}.

(** [ValidateBook]; [current_year] is [time.Now().Year()]. *)
Definition ValidateBook (current_year : Z) (v : validator.Validator) (book : Book)
  : validator.Validator :=
  let v := validator.Check v (negb (String.eqb (Title book) "")) "title" "must be provided" in
  let v := validator.Check v (len (Title book) <=? 500) "title"
             "must not be more than 500 bytes long" in
  let v := validator.Check v (negb (Year book =? 0)) "year" "must be provided" in
  let v := validator.Check v (1888 <=? Year book) "year" "must be greater than 1888" in
  let v := validator.Check v (Year book <=? GoInt.wrap32 current_year) "year"
             "must not be in the future" in
  let v := validator.Check v (negb (Pages book =? 0)) "pages" "must be provided" in
  let v := validator.Check v (0 <? Pages book) "pages" "must be a positive integer" in
  let v := validator.Check v (match Genres book with None => false | Some _ => true end)
             "genres" "must be provided" in
  let v := validator.Check v (1 <=? slice_len (Genres book)) "genres"
             "must contain at least 1 genre" in
  let v := validator.Check v (slice_len (Genres book) <=? 5) "genres"
             "must not contain more than 5 genres" in
  let v := validator.Check v (validator.Unique (slice_elems (Genres book))) "genres"
             "must not contain duplicate values" in
  v.

(** ** Filters and metadata (package data) *)

Record Filters := {
  Page : Z;
  PageSize : Z;
  Sort : string;
  SortSafelist : list string
}.

Record Metadata := {
  CurrentPage : Z;
  PageSize_ : Z;
  FirstPage : Z;
  LastPage : Z;
  TotalRecords : Z
}.

(** Modelled from the spec: [ValidateFilters] is not among the sources.
    Sections 3 and 4.2: page is at least 1, pageSize is between 1 and 100,
    and sort is a member of the safelist. *)
Definition valid_filters (f : Filters) : bool :=
  (1 <=? Page f) && (1 <=? PageSize f) && (PageSize f <=? 100)
  && existsb (String.eqb (Sort f)) (SortSafelist f).

(** Modelled from the spec: [Filters.sortColumn] is not among the sources.
    Section 4.2: the field name with any leading direction marker
    removed. *)
Definition sortColumn (f : Filters) : string := TrimPrefix (Sort f) "-".

(** Modelled from the spec: [Filters.sortDirection] is not among the
    sources.  Section 4.2: DESC if the marker is present, else ASC. *)
Definition sortDirection (f : Filters) : string :=
  if HasPrefix (Sort f) "-" then "DESC" else "ASC".

(** Modelled from the spec: [Filters.limit] and [Filters.offset] are not
    among the sources.  Section 4.1 only says that limit and offset are
    derived from the filters: a page holds pageSize rows and page p starts
    after the p - 1 pages before it (Go [int] arithmetic, 64 bits). *)
Definition limit (f : Filters) : Z := PageSize f.
Definition offset (f : Filters) : Z := GoInt.wrap64 ((Page f - 1) * PageSize f).

Definition emptyMetadata : Metadata :=
  {| CurrentPage := 0; PageSize_ := 0; FirstPage := 0; LastPage := 0; TotalRecords := 0 |}.

(** Modelled from the spec: [calculateMetadata] is not among the sources.
    Section 4.3: the zero-valued metadata if totalRecords = 0, and otherwise
    the current page, the page size, first page 1, last page
    ceil(totalRecords / pageSize) and the total. *)
Definition calculateMetadata (totalRecords page pageSize : Z) : Metadata :=
  if totalRecords =? 0 then emptyMetadata
  else {| CurrentPage := page; PageSize_ := pageSize; FirstPage := 1;
          LastPage := (totalRecords + pageSize - 1) / pageSize;
          TotalRecords := totalRecords |}.

(** ** The backing store

    What the PostgreSQL server does with the five statements of
    [BookModel], on the table of the migration:
<<
    CREATE TABLE books (
      id bigserial PRIMARY KEY,
      created timestamp(0) with time zone NOT NULL DEFAULT NOW(),
      title text NOT NULL, year integer NOT NULL, pages integer NOT NULL,
      genres text[] NOT NULL, version integer NOT NULL DEFAULT 1);
>>
    The primary key makes the table a finite map from id to the other
    columns. *)

(** The three operations the sources delegate to the server without
    fixing them: the full-text match
    [to_tsvector('english', title) @@ plainto_tsquery('english', q)], the
    ordering of [text] values under the collation of the database, a
    total order on strings, and [text_in], whether the server takes the
    bytes of a parameter as a [text] value in the encoding of the database
    (in no encoding does it take a zero byte). *)
Class Postgres := {
  tsmatch : string -> string -> bool;
  collate : string -> string -> comparison;
  text_in : string -> bool;
  collate_eq : forall a b, collate a b = Eq -> a = b;
  collate_antisym : forall a b, collate b a = CompOpp (collate a b);
  collate_trans : forall a b c,
    collate a b = Lt -> collate b c = Lt -> collate a c = Lt;
  text_in_nul : forall t, text_in t = true -> contains t (chr 0) = false
}.

Record Row := {
  row_created : Z;
  row_title : string;
  row_year : Z;
  row_pages : Z;
  row_genres : list string;
  row_version : Z
}.

Record Store := {
  books : gmap Z Row;
  books_id_seq : Z          (* next value of the sequence behind bigserial *)
}.

Definition with_books (s : Store) (m : gmap Z Row) : Store :=
  {| books := m; books_id_seq := books_id_seq s |}.

Inductive Column :=
| col_id | col_created | col_title | col_year | col_pages | col_genres | col_version.

Definition column_of_name (name : string) : option Column :=
  if String.eqb name "id" then Some col_id
  else if String.eqb name "created" then Some col_created
  else if String.eqb name "title" then Some col_title
  else if String.eqb name "year" then Some col_year
  else if String.eqb name "pages" then Some col_pages
  else if String.eqb name "genres" then Some col_genres
  else if String.eqb name "version" then Some col_version
  else None.

(** Comparison of two [text[]] values: element by element, a proper prefix
    first. *)
Fixpoint array_cmp `{Postgres} (a b : list string) : comparison :=
  match a, b with
  | [], [] => Eq
  | [], _ :: _ => Lt
  | _ :: _, [] => Gt
  | x :: a', y :: b' =>
      match collate x y with
      | Eq => array_cmp a' b'
      | o => o
      end
  end.

Definition key_cmp `{Postgres} (c : Column) (x y : Z * Row) : comparison :=
  match c with
  | col_id => x.1 ?= y.1
  | col_created => row_created x.2 ?= row_created y.2
  | col_title => collate (row_title x.2) (row_title y.2)
  | col_year => row_year x.2 ?= row_year y.2
  | col_pages => row_pages x.2 ?= row_pages y.2
  | col_genres => array_cmp (row_genres x.2) (row_genres y.2)
  | col_version => row_version x.2 ?= row_version y.2
  end.

(** [ORDER BY c ASC|DESC, id ASC]. *)
Definition order_cmp `{Postgres} (c : Column) (desc : bool) (x y : Z * Row) : comparison :=
  match (if desc then CompOpp (key_cmp c x y) else key_cmp c x y) with
  | Eq => x.1 ?= y.1
  | o => o
  end.

Definition order_le `{Postgres} (c : Column) (desc : bool) : relation (Z * Row) :=
  fun x y => order_cmp c desc x y <> Gt.

#[global] Instance order_le_dec `{Postgres} c desc x y : Decision (order_le c desc x y).
Proof. unfold order_le. apply _. Defined.

Section Statements.
Context `{Postgres}.

(** [fault] is what the environment does to one round trip: [None] when
    the statement is run and its result reaches the caller. *)
Variable fault : option Fault.

(** The round trip of a statement that may write: [run] is what the
    server makes of the statement in store [s]. *)
Definition round_trip {A} (s : Store) (run : Store * (SqlError + A))
    : Store * (SqlError + A) :=
  match fault with
  | None => run
  | Some (refused msg) => (s, inl (driver_failure msg))
  | Some (reply_lost msg _) => (run.1, inl (driver_failure msg))
  end.

(** What [Scan] had copied into its destinations when a call that ran the
    statement failed: the first row, if the failure came after the
    scan. *)
Definition scanned_row {A} (run : Store * (SqlError + list A)) : option A :=
  match fault, run.2 with
  | Some (reply_lost _ true), inr (x :: _) => Some x
  | _, _ => None
  end.

(** The round trip of a query, which leaves the store alone. *)
Definition round_trip_query {A} (run : SqlError + A) : SqlError + A :=
  match fault with
  | None => run
  | Some (refused msg) | Some (reply_lost msg _) => inl (driver_failure msg)
  end.

(** Parameters are bound, in their order, at the types the server infers
    for them: [text] and [text[]] must be in the encoding of the database
    (SQLSTATE 22021 otherwise), an [integer] must fit 32 bits and a
    [bigint] 64 (22003 otherwise).  A nil slice is sent as NULL and
    binds. *)
Definition bind_text (t : string) : option string :=
  if text_in t then None else Some "22021".

Definition bind_text_array (a : option (list string)) : option string :=
  match a with
  | None => None
  | Some l => if forallb text_in l then None else Some "22021"
  end.

Definition bind_integer (z : Z) : option string :=
  if GoInt.is_int32 z then None else Some "22003".

Definition bind_bigint (z : Z) : option string :=
  if GoInt.is_int64 z then None else Some "22003".

(** The SQLSTATE of the first parameter that is refused. *)
Fixpoint bind (params : list (option string)) : option string :=
  match params with
  | [] => None
  | Some sqlstate :: _ => Some sqlstate
  | None :: rest => bind rest
  end.

(** [INSERT INTO books (title, year, pages, genres)
     VALUES ($1, $2, $3, $4) RETURNING id, created, version] at time
    [now], as the server runs it.  The sequence is advanced even if the
    row is then refused. *)
Definition insert_statement (now : Z) (s : Store) (title : string) (year pages : Z)
    (genres : option (list string)) : Store * (SqlError + list (Z * Z * Z)) :=
  match bind [bind_text title; bind_integer year; bind_integer pages;
              bind_text_array genres] with
  | Some sqlstate => (s, inl (pq_Error sqlstate))
  | None =>
      let id := books_id_seq s in
      if GoInt.MaxInt64 <? id then (s, inl (pq_Error "2200H"))
      else
        let s1 := {| books := books s; books_id_seq := id + 1 |} in
        match genres, books s !! id with
        | None, _ => (s1, inl (pq_Error "23502"))
        | Some _, Some _ => (s1, inl (pq_Error "23505"))
        | Some g, None =>
            let r := {| row_created := now; row_title := title; row_year := year;
                        row_pages := pages; row_genres := g; row_version := 1 |} in
            (with_books s1 (<[id := r]> (books s)), inr [(id, now, 1)])
        end
  end.

Definition sql_insert (now : Z) (s : Store) (title : string) (year pages : Z)
    (genres : option (list string)) : Store * (SqlError + list (Z * Z * Z)) :=
  round_trip s (insert_statement now s title year pages genres).

(** [SELECT id, created, title, year, pages, genres, version FROM books
     WHERE id = $1]. *)
Definition sql_select_by_id (s : Store) (id : Z) : SqlError + list (Z * Row) :=
  round_trip_query
    (if negb (GoInt.is_int64 id) then inl (pq_Error "22003")
     else match books s !! id with
          | Some r => inr [(id, r)]
          | None => inr []
          end).

(** [UPDATE books SET title = $1, year = $2, pages = $3, genres = $4,
     version = version + 1 WHERE id = $5 AND version = $6
     RETURNING version], as the server runs it: one statement, which finds
    the row and writes it in one step. *)
Definition update_statement (s : Store) (title : string) (year pages : Z)
    (genres : option (list string)) (id version : Z) : Store * (SqlError + list Z) :=
  match bind [bind_text title; bind_integer year; bind_integer pages;
              bind_text_array genres; bind_bigint id; bind_integer version] with
  | Some sqlstate => (s, inl (pq_Error sqlstate))
  | None =>
      match books s !! id with
      | Some r =>
          if row_version r =? version then
            match genres with
            | None => (s, inl (pq_Error "23502"))
            | Some g =>
                if negb (GoInt.is_int32 (row_version r + 1))
                then (s, inl (pq_Error "22003"))
                else
                  let r' := {| row_created := row_created r; row_title := title;
                               row_year := year; row_pages := pages;
                               row_genres := g;
                               row_version := row_version r + 1 |} in
                  (with_books s (<[id := r']> (books s)), inr [row_version r + 1])
            end
          else (s, inr [])
      | None => (s, inr [])
      end
  end.

Definition sql_update (s : Store) (title : string) (year pages : Z)
    (genres : option (list string)) (id version : Z) : Store * (SqlError + list Z) :=
  round_trip s (update_statement s title year pages genres id version).

(** [DELETE FROM books WHERE id = $1], as the server runs it: the number
    of rows affected. *)
Definition delete_statement (s : Store) (id : Z) : Store * (SqlError + Z) :=
  if negb (GoInt.is_int64 id) then (s, inl (pq_Error "22003"))
  else match books s !! id with
       | Some _ => (with_books s (delete id (books s)), inr 1)
       | None => (s, inr 0)
       end.

Definition sql_delete (s : Store) (id : Z) : Store * (SqlError + Z) :=
  round_trip s (delete_statement s id).

(** The condition of the listing:
    [(to_tsvector('english', title) @@ plainto_tsquery('english', $1)
      OR $1 = '') AND (genres @> $2 OR $2 = '{}')].
    A nil slice is sent as NULL, and the condition is then not true. *)
Definition matches (title : string) (genres : option (list string))
    (x : Z * Row) : bool :=
  (tsmatch (row_title x.2) title || String.eqb title "")
  && match genres with
     | None => false
     | Some g =>
         forallb (fun v => existsb (String.eqb v) (row_genres x.2)) g
         || Nat.eqb (List.length g) 0
     end.

Definition matching_rows (s : Store) (title : string)
    (genres : option (list string)) : list (Z * Row) :=
  List.filter (matches title genres) (map_to_list (books s)).

(** [SELECT count( * ) OVER(), id, ... FROM books WHERE ...
     ORDER BY <column> <direction>, id ASC LIMIT $3 OFFSET $4]: the window
    count is the number of rows that satisfy the condition, repeated on
    every row of the page.  The column and the direction are part of the
    text of the statement, which is parsed before the parameters are bound;
    limit and offset are Go ints, which fit [bigint]. *)
Definition sql_select_page (s : Store) (column direction : string)
    (title : string) (genres : option (list string)) (lim off : Z)
    : SqlError + list (Z * (Z * Row)) :=
  round_trip_query
    match column_of_name column with
    | None => inl (pq_Error "42703")
    | Some c =>
        if negb (String.eqb direction "ASC" || String.eqb direction "DESC")
        then inl (pq_Error "42601")
        else
          match bind [bind_text title; bind_text_array genres] with
          | Some sqlstate => inl (pq_Error sqlstate)
          | None =>
              if lim <? 0 then inl (pq_Error "2201W")
              else if off <? 0 then inl (pq_Error "2201X")
              else
                let found := matching_rows s title genres in
                let sorted :=
                  merge_sort (order_le c (String.eqb direction "DESC")) found in
                let page := take (Z.to_nat lim) (drop (Z.to_nat off) sorted) in
                inr (List.map (fun x => (Z.of_nat (List.length found), x)) page)
          end
    end.

End Statements.

(** ** BookModel (package data) *)

Section BookModel.
Context `{Postgres}.

(** [QueryRowContext(...).Scan(...)]: the first row, [sql.ErrNoRows] if
    there is none. *)
Definition QueryRow {A} (rows : SqlError + list A) : SqlError + A :=
  match rows with
  | inl e => inl e
  | inr [] => inl sql_ErrNoRows
  | inr (x :: _) => inr x
  end.

(** [Scan] of the seven columns into a [Book]. *)
Definition scan_book (x : Z * Row) : Book :=
  {| ID := x.1; Created := row_created x.2; Title := row_title x.2;
     Year := row_year x.2; Pages := row_pages x.2;
     Genres := Some (row_genres x.2); Version := row_version x.2 |}.

(** [Scan(&book.ID, &book.Created, &book.Version)]. *)
Definition scan_insert (book : Book) (x : Z * Z * Z) : Book :=
  {| ID := x.1.1; Created := x.1.2; Title := Title book; Year := Year book;
     Pages := Pages book; Genres := Genres book; Version := x.2 |}.

(** [BookModel.Insert]: the store afterwards, the book behind the
    pointer afterwards, and the error. *)
Definition Insert (fault : option Fault) (now : Z) (s : Store) (book : Book)
    : Store * Book * option error :=
  let '(s', rows) :=
    sql_insert fault now s (Title book) (Year book) (Pages book) (Genres book) in
  match QueryRow rows with
  | inl e =>
      (s',
       from_option (scan_insert book) book
         (scanned_row fault
            (insert_statement now s (Title book) (Year book) (Pages book)
                              (Genres book))),
       Some (ErrStore e))
  | inr x => (s', scan_insert book x, None)
  end.

(** [BookModel.Get]. *)
Definition Get (fault : option Fault) (s : Store) (id : Z) : error + Book :=
  if id <? 1 then inl ErrRecordNotFound
  else
    match QueryRow (sql_select_by_id fault s id) with
    | inl sql_ErrNoRows => inl ErrRecordNotFound
    | inl e => inl (ErrStore e)
    | inr x => inr (scan_book x)
    end.

(** [BookModel.Update]: the store afterwards, the book behind the
    pointer afterwards (its [Version] is written by [Scan]), and the
    error. *)
Definition Update (fault : option Fault) (s : Store) (book : Book)
    : Store * Book * option error :=
  let '(s', rows) :=
    sql_update fault s (Title book) (Year book) (Pages book) (Genres book)
               (ID book) (Version book) in
  match QueryRow rows with
  | inl sql_ErrNoRows => (s', book, Some ErrEditConflict)
  | inl e =>
      (s',
       from_option (set_Version book) book
         (scanned_row fault
            (update_statement s (Title book) (Year book) (Pages book) (Genres book)
                              (ID book) (Version book))),
       Some (ErrStore e))
  | inr version => (s', set_Version book version, None)
  end.

(** [BookModel.Delete]. *)
Definition Delete (fault : option Fault) (s : Store) (id : Z) : Store * option error :=
  if id <? 1 then (s, Some ErrRecordNotFound)
  else
    match sql_delete fault s id with
    | (s', inl e) => (s', Some (ErrStore e))
    | (s', inr rowsAff) =>
        if rowsAff =? 0 then (s', Some ErrRecordNotFound) else (s', None)
    end.

(** The loop [for rows.Next() { rows.Scan(&totalRecords, ...) ... }] of
    [GetAll], from [totalRecords := 0] and [books := []*Book{}]. *)
Definition scan_rows (rows : list (Z * (Z * Row))) : Z * list Book :=
  fold_left (fun (st : Z * list Book) r => (r.1, (st.2 ++ [scan_book r.2])%list))
    rows (0, []).

(** [BookModel.GetAll]. *)
Definition GetAll (fault : option Fault) (s : Store) (title : string)
    (genres : option (list string)) (filters : Filters)
    : error + (list Book * Metadata) :=
  match sql_select_page fault s (sortColumn filters) (sortDirection filters)
          title genres (limit filters) (offset filters) with
  | inl e => inl (ErrStore e)
  | inr rows =>
      let '(totalRecords, found) := scan_rows rows in
      inr (found, calculateMetadata totalRecords (Page filters) (PageSize filters))
  end.

End BookModel.

(** ** The update handler (package main) *)

(** The anonymous struct [in] of [updateBookHandler]: three pointers and a
    slice, nil when the JSON body leaves the key out. *)
Record UpdateInput := {
  in_Title : option string;
  in_Year : option Z;
  in_Pages : option Z;
  in_Genres : option (list string)
}.

(** What the handler reads of a request: the router parameter [id], the
    value of [r.Header.Get] for X-Expected-Version (empty when the header
    is absent), and what [readJSON] makes of the body, an error message or
    the decoded input. *)
Record Request := {
  param_id : string;
  X_Expected_Version : string;
  body : string + UpdateInput
}.

Inductive Response :=
| notFoundResponse                                        (* 404 *)
| serverErrorResponse (err : error)                       (* 500 *)
| editConflictResponse                                    (* 409 *)
| badRequestResponse (msg : string)                       (* 400 *)
| failedValidationResponse (errors : gmap string string)  (* 422 *)
| bookResponse (book : Book).                             (* 200 *)

(** What the handler did, in order. *)
Inductive Event :=
| EvGet (id : Z)
| EvReadJSON
| EvValidate (book : Book)
| EvUpdate (book : Book).

(** [application.readID]. *)
Definition readID (r : Request) : option Z :=
  match strconv.ParseInt (param_id r) with
  | inl _ => None
  | inr id => if id <? 1 then None else Some id
  end.

(** The four assignments under [if in.X != nil]. *)
Definition merge (book : Book) (inp : UpdateInput) : Book :=
  let title := match in_Title inp with Some t => t | None => Title book end in
  let year := match in_Year inp with Some y => y | None => Year book end in
  let pages := match in_Pages inp with Some p => p | None => Pages book end in
  let genres := match in_Genres inp with Some g => Some g | None => Genres book end in
  {| ID := ID book; Created := Created book; Title := title; Year := year;
     Pages := pages; Genres := genres; Version := Version book |}.

(** [updateBookHandler].  [others] is what concurrent requests do to the
    store between this handler's [Get] and its [Update]; the store
    returned is the one left by the handler's last access. *)
Definition updateBookHandler `{Postgres} (current_year : Z)
    (get_fault update_fault : option Fault) (others : Store -> Store)
    (s : Store) (r : Request) : Store * Response * list Event :=
  match readID r with
  | None => (s, notFoundResponse, [])
  | Some id =>
      match Get get_fault s id with
      | inl ErrRecordNotFound => (s, notFoundResponse, [EvGet id])
      | inl err => (s, serverErrorResponse err, [EvGet id])
      | inr book =>
          if negb (String.eqb (X_Expected_Version r) "")
             && negb (String.eqb (strconv.FormatInt (Version book))
                                 (X_Expected_Version r))
          then (s, editConflictResponse, [EvGet id])
          else
            match body r with
            | inl msg => (s, badRequestResponse msg, [EvGet id; EvReadJSON])
            | inr inp =>
                let book := merge book inp in
                let v := ValidateBook current_year validator.New book in
                if negb (validator.Valid v)
                then (s, failedValidationResponse (validator.Errors v),
                      [EvGet id; EvReadJSON; EvValidate book])
                else
                  let '(s', book', err) := Update update_fault (others s) book in
                  let trace := [EvGet id; EvReadJSON; EvValidate book; EvUpdate book] in
                  match err with
                  | Some ErrEditConflict => (s', editConflictResponse, trace)
                  | Some e => (s', serverErrorResponse e, trace)
                  | None => (s', bookResponse book', trace)
                  end
            end
      end
  end.

(** ** Decimal numerals and plain literals *)

Definition is_digit (c : ascii) : bool := (48 <=? byte c) && (byte c <=? 57).

Fixpoint all_digits (s : string) : bool :=
  match s with
  | EmptyString => true
  | String c s' => is_digit c && all_digits s'
  end.

(** The number that the digits of [s] denote, read after a prefix of
    value [n]. *)
Fixpoint value_from (n : Z) (s : string) : Z :=
  match s with
  | EmptyString => n
  | String c s' => value_from (n * 10 + (byte c - 48)) s'
  end.

(** [s] is a decimal numeral of [n]: an optional sign and at least one
    digit. *)
Definition decimal_of (s : string) (n : Z) : Prop :=
  exists sign ds,
    s = sign ++ ds /\ (sign = "" \/ sign = "+" \/ sign = "-")
    /\ ds <> EmptyString /\ all_digits ds = true
    /\ n = if String.eqb sign "-" then - value_from 0 ds else value_from 0 ds.

(** Printable ASCII other than the double quote and the backslash: the
    bytes that [Quote] copies and that [Unquote] takes as they are. *)
Definition plain_byte (c : ascii) : bool :=
  (32 <=? byte c) && (byte c <=? 126) && negb (byte c =? 34) && negb (byte c =? 92).

Fixpoint plain (s : string) : bool :=
  match s with
  | EmptyString => true
  | String c s' => plain_byte c && plain s'
  end.

(** The JSON string literal of a text without escapes. *)
Definition quoted (s : string) : string := String dquote (s ++ String dquote EmptyString).

(** ** The decoder as the specification words it

    Section 4.4 of the specification: the input must be exactly two
    whitespace-separated tokens, the second the literal pages, the first a
    base-10 integer.  [spec_tokens] cuts a text at runs of ASCII
    whitespace. *)
Definition is_space (c : ascii) : bool :=
  (byte c =? 32) || ((9 <=? byte c) && (byte c <=? 13)).

Fixpoint spec_tokens_from (s cur : string) : list string :=
  match s with
  | EmptyString => if String.eqb cur "" then [] else [cur]
  | String c s' =>
      if is_space c then
        if String.eqb cur "" then spec_tokens_from s' ""
        else cur :: spec_tokens_from s' ""
      else spec_tokens_from s' (cur ++ String c EmptyString)
  end.

Definition spec_tokens (s : string) : list string := spec_tokens_from s "".

Definition spec_accepts (s : string) : bool :=
  match spec_tokens s with
  | [a; b] =>
      String.eqb b "pages"
      && match strconv.ParseInt a with inr _ => true | inl _ => false end
  | _ => false
  end.

(** ** Notions used in the statements *)

(** The parameters of [Update] are accepted at the types of their columns:
    title and genres as [text] in the encoding of the database, year, pages
    and version as [integer], id as [bigint].  For a [Book] of the Go
    program the page count, an [int64], can be out of range, and a text can
    hold bytes the server refuses. *)
Definition update_params `{Postgres} (book : Book) : list (option string) :=
  [bind_text (Title book); bind_integer (Year book); bind_integer (Pages book);
   bind_text_array (Genres book); bind_bigint (ID book); bind_integer (Version book)].

Definition binds `{Postgres} (book : Book) : bool :=
  match bind (update_params book) with
  | None => true
  | Some _ => false
  end.

(** The row that a successful [Update] of [book] leaves in place of [r]. *)
Definition updated_row (r : Row) (book : Book) (g : list string) : Row :=
  {| row_created := row_created r; row_title := Title book; row_year := Year book;
     row_pages := Pages book; row_genres := g; row_version := row_version r + 1 |}.

(** The safelist that [listBooksHandler] puts in the filters. *)
Definition listBooks_safelist : list string :=
  ["id"; "title"; "year"; "pages"; "-id"; "-title"; "-year"; "-pages"].

(** The row a scanned book came from. *)
Definition unscan (b : Book) : Z * Row :=
  (ID b, {| row_created := Created b; row_title := Title b; row_year := Year b;
            row_pages := Pages b; row_genres := slice_elems (Genres b);
            row_version := Version b |}).

(** [b1] comes strictly before [b2] under [ORDER BY c ASC|DESC, id ASC]. *)
Definition book_before `{Postgres} (c : Column) (desc : bool) (b1 b2 : Book) : Prop :=
  order_cmp c desc (unscan b1) (unscan b2) = Lt.

(** The whole result of the listing in order, before LIMIT and OFFSET cut
    a page out of it. *)
Definition listing `{Postgres} (s : Store) (title : string)
    (genres : option (list string)) (c : Column) (desc : bool) : list Book :=
  scan_book <$> merge_sort (order_le c desc) (matching_rows s title genres).

(** A comparison that is a total order up to its own equivalence. *)
Record lawful {A} (cmp : A -> A -> comparison) : Prop := {
  lawful_antisym : forall x y, cmp y x = CompOpp (cmp x y);
  lawful_trans : forall x y z, cmp x y = Lt -> cmp y z = Lt -> cmp x z = Lt;
  lawful_eq : forall x y z, cmp x y = Eq -> cmp x z = cmp y z
}.

(** Lexicographic combination of two comparisons. *)
Definition lex {A} (cmp1 cmp2 : A -> A -> comparison) (x y : A) : comparison :=
  match cmp1 x y with
  | Eq => cmp2 x y
  | o => o
  end.

(** ** Sample data *)

(** A table that lists no rune above U+00FF as printable: enough to run
    [Quote] on ASCII text. *)
#[global] Instance latin1_tables : UnicodeTables := {| in_print_tables := fun _ => false |}.

(** Four books, the second one at version 3, the first and
    the fourth of the same year. *)
Definition sample_row (t : string) (y p : Z) (g : list string) (v : Z) : Row :=
  {| row_created := 1700000000; row_title := t; row_year := y; row_pages := p;
     row_genres := g; row_version := v |}.

Definition sample_store : Store :=
  {| books := <[4 := sample_row "The Waste Land" 1922 64 ["poetry"] 1]>
                (<[3 := sample_row "Emma" 1815 474 ["novel"] 1]>
                   (<[2 := sample_row "Dune" 1965 412 ["sf"; "novel"] 3]>
                      (<[1 := sample_row "Ulysses" 1922 730 ["novel"] 1]> ∅)));
     books_id_seq := 5 |}.

Definition sample_filters (page : Z) (sort : string) : Filters :=
  {| Page := page; PageSize := 20; Sort := sort; SortSafelist := listBooks_safelist |}.

Definition sample_book (version : Z) : Book :=
  {| ID := 2; Created := 1700000000; Title := "Dune Messiah"; Year := 1969;
     Pages := 256; Genres := Some ["sf"]; Version := version |}.

(** The sample books by descending year, ties by ascending id. *)
Definition sample_by_year_desc : list Book :=
  scan_book <$> [(2, sample_row "Dune" 1965 412 ["sf"; "novel"] 3);
                 (1, sample_row "Ulysses" 1922 730 ["novel"] 1);
                 (4, sample_row "The Waste Land" 1922 64 ["poetry"] 1);
                 (3, sample_row "Emma" 1815 474 ["novel"] 1)].

Definition sample_metadata : Metadata :=
  {| CurrentPage := 1; PageSize_ := 20; FirstPage := 1; LastPage := 1; TotalRecords := 4 |}.

(** A request for the second sample book. *)
Definition sample_request (expected : string) : Request :=
  {| param_id := "2"; X_Expected_Version := expected;
     body := inr {| in_Title := Some "Dune (revised)"; in_Year := None;
                    in_Pages := None; in_Genres := None |} |}.

(** ** The other handlers and the query-string helpers (package main) *)

(** The status code each response helper of errors.go sends, 200 for the
    body that [writeJSON] sends on success. *)
Definition status (resp : Response) : Z :=
  match resp with
  | notFoundResponse => 404
  | serverErrorResponse _ => 500
  | editConflictResponse => 409
  | badRequestResponse _ => 400
  | failedValidationResponse _ => 422
  | bookResponse _ => 200
  end.

(** [getBookHandler]. *)
Definition getBookHandler (fault : option Fault) (s : Store) (r : Request)
    : Response :=
  match readID r with
  | None => notFoundResponse
  | Some id =>
      match Get fault s id with
      | inl ErrRecordNotFound => notFoundResponse
      | inl err => serverErrorResponse err
      | inr book => bookResponse book
      end
  end.

(** The anonymous struct [in] of [createBookHandler]: plain fields, zero
    when the JSON body leaves the key out. *)
Record CreateInput := {
  cin_Title : string;
  cin_Year : Z;
  cin_Pages : Z;
  cin_Genres : option (list string)
}.

(** What [createBookHandler] answers: one of the error responses, or 201
    Created with the book and the Location header. *)
Inductive CreateResponse :=
| createFailed (resp : Response)
| createdResponse (book : Book) (location : string).

(** [createBookHandler]; [body] is what [readJSON] makes of the request
    body, [now] the time of the server when the row is inserted. *)
Definition createBookHandler `{Postgres} (current_year : Z) (fault : option Fault)
    (now : Z) (s : Store) (body : string + CreateInput) : Store * CreateResponse :=
  match body with
  | inl msg => (s, createFailed (badRequestResponse msg))
  | inr inp =>
      let book := {| ID := 0; Created := 0; Title := cin_Title inp; Year := cin_Year inp;
                     Pages := cin_Pages inp; Genres := cin_Genres inp; Version := 0 |} in
      let v := ValidateBook current_year validator.New book in
      if negb (validator.Valid v)
      then (s, createFailed (failedValidationResponse (validator.Errors v)))
      else
        let '(s', book', err) := Insert fault now s book in
        match err with
        | Some e => (s', createFailed (serverErrorResponse e))
        | None => (s', createdResponse book' ("/books/" ++ strconv.FormatInt (ID book')))
        end
  end.

(** [deleteBookHandler]: an error response, or 200 with the message. *)
Definition deleteBookHandler (fault : option Fault) (s : Store) (r : Request)
    : Store * (Response + string) :=
  match readID r with
  | None => (s, inl notFoundResponse)
  | Some id =>
      match Delete fault s id with
      | (s', Some ErrRecordNotFound) => (s', inl notFoundResponse)
      | (s', Some err) => (s', inl (serverErrorResponse err))
      | (s', None) => (s', inr "book successfully deleted")
      end
  end.

(** [url.Values.Get]: the first value of the key, empty if there is
    none. *)
Definition Values_Get (qs : gmap string (list string)) (key : string) : string :=
  match qs !! key with
  | Some (v :: _) => v
  | _ => EmptyString
  end.

(** [application.readString]. *)
Definition readString (qs : gmap string (list string)) (key defaultValue : string)
    : string :=
  let s := Values_Get qs key in
  if String.eqb s "" then defaultValue else s.

(** [application.readCSV]. *)
Definition readCSV (qs : gmap string (list string)) (key : string)
    (defaultValue : list string) : list string :=
  let csv := Values_Get qs key in
  if String.eqb csv "" then defaultValue else Split csv ",".

(** [strconv.Atoi] where [int] has 64 bits: the result of
    [ParseInt(s, 10, 0)]. *)
Definition Atoi (s : string) : strconv.NumError + Z := strconv.ParseInt s.

(** [application.readInt]: the integer, and the validator afterwards. *)
Definition readInt (qs : gmap string (list string)) (key : string) (defaultValue : Z)
    (v : validator.Validator) : Z * validator.Validator :=
  let s := Values_Get qs key in
  if String.eqb s "" then (defaultValue, v)
  else
    match Atoi s with
    | inl _ => (defaultValue, validator.AddError v key "must be an integer value")
    | inr i => (i, v)
    end.

(** [strings.Join]. *)
Fixpoint Join (pieces : list string) (sep : string) : string :=
  match pieces with
  | [] => EmptyString
  | [p] => p
  | p :: rest => p ++ sep ++ Join rest sep
  end.

(** A book passes [ValidateBook]. *)
Definition valid_book (current_year : Z) (book : Book) : Prop :=
  validator.Valid (ValidateBook current_year validator.New book) = true.

(** Every stored row is a book that passes [ValidateBook]. *)
Definition store_valid (current_year : Z) (s : Store) : Prop :=
  forall id row, books s !! id = Some row -> valid_book current_year (scan_book (id, row)).

Definition set_Created (b : Book) (created : Z) : Book :=
  {| ID := ID b; Created := created; Title := Title b; Year := Year b;
     Pages := Pages b; Genres := Genres b; Version := Version b |}.

(** A query string: [?page=2&sort=-year&genres=sf,novel]. *)
Definition sample_query : gmap string (list string) :=
  <["genres" := ["sf,novel"]]> (<["sort" := ["-year"]]> (<["page" := ["2"]]> ∅)).

(** A well-formed body for [createBookHandler]. *)
Definition sample_create : CreateInput :=
  {| cin_Title := "Solaris"; cin_Year := 1961; cin_Pages := 204;
     cin_Genres := Some ["sf"] |}.

(** A concurrent request that updates the second sample book first. *)
Definition sample_rival `{Postgres} (s : Store) : Store := (Update None s (sample_book 3)).1.1.

(** The second sample book at a version that is no longer the stored one,
    with a page count that does not fit the column [pages integer]. *)
Definition sample_oversized : Book :=
  {| ID := 2; Created := 1700000000; Title := "Dune"; Year := 1965;
     Pages := 3000000000; Genres := Some ["sf"; "novel"]; Version := 2 |}.

(** A patch that fails validation: a negative page count. *)
Definition sample_bad_request : Request :=
  {| param_id := "2"; X_Expected_Version := "";
     body := inr {| in_Title := None; in_Year := None; in_Pages := Some (-1);
                    in_Genres := None |} |}.

(** A store in which every record passes [ValidateBook] in 2025. *)
Definition sample_valid_store : Store :=
  {| books := <[4 := sample_row "The Waste Land" 1922 64 ["poetry"] 1]>
                (<[2 := sample_row "Dune" 1965 412 ["sf"; "novel"] 3]>
                   (<[1 := sample_row "Ulysses" 1922 730 ["novel"] 1]> ∅));
     books_id_seq := 5 |}.

(** * Properties *)

(** ** A concrete server

    The byte-wise ordering of strings (the collation "C") and the
    encoding UTF8, with substring search standing in for the text search,
    give an instance of [Postgres] on which the statements can be run. *)

Lemma ascii_compare_trans (a b c : ascii) :
  Ascii.compare a b = Lt -> Ascii.compare b c = Lt -> Ascii.compare a c = Lt.
Proof.
  unfold Ascii.compare. rewrite !N.compare_lt_iff. lia.
Qed.

Lemma string_compare_trans (a b c : string) :
  String.compare a b = Lt -> String.compare b c = Lt -> String.compare a c = Lt.
Proof.
  revert b c. induction a as [|x a IH]; intros [|y b] [|z c]; simpl; try congruence.
  destruct (Ascii.compare x y) eqn:Exy; try discriminate;
    destruct (Ascii.compare y z) eqn:Eyz; try discriminate; intros Hab Hbc.
  - apply Ascii.compare_eq_iff in Exy. subst y. rewrite Eyz. eauto.
  - apply Ascii.compare_eq_iff in Exy. subst y. now rewrite Eyz.
  - apply Ascii.compare_eq_iff in Eyz. subst z. now rewrite Exy.
  - now rewrite (ascii_compare_trans x y z).
Qed.

Definition substring_match (title query : string) : bool :=
  match String.index 0 query title with
  | Some _ => true
  | None => false
  end.

Definition utf8_text (t : string) : bool :=
  utf8.ValidString t && negb (contains t (chr 0)).

Lemma utf8_text_nul t : utf8_text t = true -> contains t (chr 0) = false.
Proof.
  unfold utf8_text. intros [_ Hn]%andb_prop. now apply negb_true_iff in Hn.
Qed.

#[global] Instance postgres_C : Postgres := {|
  tsmatch := substring_match;
  collate := String.compare;
  text_in := utf8_text;
  collate_eq := String.compare_eq_iff;
  collate_antisym := fun a b => String.compare_antisym b a;
  collate_trans := string_compare_trans;
  text_in_nul := utf8_text_nul
|}.

Ltac Zify.zify_post_hook ::= Z.to_euclidean_division_equations.

(** ** Bytes and strings *)

Lemma byte_range c : 0 <= byte c < 256.
Proof.
  unfold byte. pose proof (N_ascii_bounded c). lia.
Qed.

Lemma byte_chr z : 0 <= z < 256 -> byte (chr z) = z.
Proof.
  intros Hz. unfold byte, chr. rewrite N_ascii_embedding by lia. lia.
Qed.

Lemma chr_byte c : chr (byte c) = c.
Proof.
  unfold byte, chr. rewrite N2Z.id. apply ascii_N_embedding.
Qed.

Lemma byte_inj a b : byte a = byte b -> a = b.
Proof.
  intros E. rewrite <- (chr_byte a), <- (chr_byte b). now rewrite E.
Qed.

Lemma eqb_byte a b : Ascii.eqb a b = (byte a =? byte b).
Proof.
  destruct (Ascii.eqb_spec a b) as [->|Hne].
  - now rewrite Z.eqb_refl.
  - symmetry. apply Z.eqb_neq. intros E. apply Hne, byte_inj, E.
Qed.

Lemma append_nil_l (b : string) : EmptyString ++ b = b.
Proof. reflexivity. Qed.

Lemma append_cons x (a b : string) : String x a ++ b = String x (a ++ b).
Proof. reflexivity. Qed.

Ltac string_simpl := rewrite ?append_cons, ?append_nil_l; simpl.
Ltac string_simpl_in H := rewrite ?append_cons, ?append_nil_l in H; simpl in H.

Lemma append_assoc (a b c : string) : (a ++ b) ++ c = a ++ (b ++ c).
Proof. induction a as [|x a IH]; string_simpl; [reflexivity|now rewrite IH]. Qed.

Lemma append_nil_r (a : string) : a ++ EmptyString = a.
Proof. induction a as [|x a IH]; string_simpl; [reflexivity|now rewrite IH]. Qed.

Lemma length_append (a b : string) :
  String.length (a ++ b) = (String.length a + String.length b)%nat.
Proof. induction a as [|x a IH]; string_simpl; [reflexivity|now rewrite IH]. Qed.

Lemma contains_app a b c : contains (a ++ b) c = contains a c || contains b c.
Proof.
  induction a as [|x a IH]; string_simpl; [reflexivity|]. now rewrite IH, orb_assoc.
Qed.

(** ** Decimal digit strings *)

Lemma value_from_app n a b : value_from n (a ++ b) = value_from (value_from n a) b.
Proof. revert n. induction a as [|c a IH]; intros n; string_simpl; [reflexivity|apply IH]. Qed.

Lemma all_digits_app a b : all_digits (a ++ b) = all_digits a && all_digits b.
Proof.
  induction a as [|c a IH]; string_simpl; [reflexivity|]. rewrite IH. now rewrite andb_assoc.
Qed.

Lemma value_from_ge n s : 0 <= n -> all_digits s = true -> n <= value_from n s.
Proof.
  revert n. induction s as [|c s IH]; intros n Hn Hd; simpl in *; [lia|].
  apply andb_prop in Hd as [Hc Hs]. unfold is_digit in Hc.
  specialize (IH (n * 10 + (byte c - 48))). lia.
Qed.

Lemma format_digits_spec fuel u acc :
  0 <= u < 10 ^ Z.of_nat fuel -> (0 < fuel)%nat ->
  exists ds, strconv.format_digits fuel u acc = ds ++ acc
             /\ all_digits ds = true /\ ds <> EmptyString /\ value_from 0 ds = u.
Proof.
  revert u acc. induction fuel as [|fuel IH]; intros u acc Hu Hf; [lia|].
  simpl strconv.format_digits.
  assert (Hd : is_digit (chr (48 + u mod 10)) = true).
  { unfold is_digit. rewrite byte_chr by lia. lia. }
  destruct (u <? 10) eqn:E.
  - exists (String (chr (48 + u mod 10)) EmptyString). simpl.
    rewrite Hd, byte_chr by lia. repeat split; try easy. lia.
  - assert (Hf' : (0 < fuel)%nat).
    { destruct fuel; [|lia]. simpl in Hu. lia. }
    destruct (IH (u / 10) (String (chr (48 + u mod 10)) acc)) as (ds & E1 & E2 & E3 & E4); auto.
    { rewrite Nat2Z.inj_succ, Z.pow_succ_r in Hu by lia. lia. }
    exists (ds ++ String (chr (48 + u mod 10)) EmptyString).
    rewrite E1, append_assoc. string_simpl. split; [reflexivity|].
    rewrite all_digits_app, value_from_app, E2, E4. simpl. rewrite Hd, byte_chr by lia.
    repeat split; try lia. destruct ds; easy.
Qed.

Lemma FormatUint_spec u :
  0 <= u <= GoInt.MaxUint64 ->
  exists ds, strconv.FormatUint u = ds
             /\ all_digits ds = true /\ ds <> EmptyString /\ value_from 0 ds = u.
Proof.
  intros Hu. unfold GoInt.MaxUint64 in Hu.
  destruct (format_digits_spec 20 u EmptyString) as (ds & E & H1 & H2 & H3).
  - change (10 ^ Z.of_nat 20) with 100000000000000000000. lia.
  - lia.
  - exists ds. unfold strconv.FormatUint. rewrite E, append_nil_r. auto.
Qed.

(** [parse_digits] accepts exactly the digit strings whose value fits in a
    [uint64]. *)
Lemma parse_digits_spec s n m :
  0 <= n <= GoInt.MaxUint64 ->
  strconv.parse_digits s n = inr m <->
  all_digits s = true /\ value_from n s = m /\ m <= GoInt.MaxUint64.
Proof.
  revert n. induction s as [|c s IH]; intros n Hn; simpl.
  - split; [intros [= <-]; repeat split; lia | intros (_ & <- & _); reflexivity].
  - pose proof (byte_range c) as Hc. unfold is_digit, strconv.lower.
    destruct ((48 <=? byte c) && (byte c <=? 57)) eqn:Ed.
    + assert (E10 : (10 <=? byte c - 48) = false) by lia. rewrite E10.
      unfold GoInt.MaxUint64, GoInt.wrapU64 in *.
      destruct (18446744073709551615 / 10 + 1 <=? n) eqn:Ecut.
      * split; [discriminate|]. intros (Hs & Hv & Hm). exfalso.
        pose proof (value_from_ge (n * 10 + (byte c - 48)) s ltac:(lia) Hs). lia.
      * destruct (Z_le_gt_dec (n * 10 + (byte c - 48)) 18446744073709551615) as [Hle|Hgt].
        -- rewrite (Z.mod_small (n * 10)) by lia.
           rewrite (Z.mod_small (n * 10 + (byte c - 48))) by lia.
           replace ((n * 10 + (byte c - 48) <? n * 10)
                    || (18446744073709551615 <? n * 10 + (byte c - 48))) with false by lia.
           rewrite IH by lia. simpl. tauto.
        -- replace ((((n * 10) mod 18446744073709551616 + (byte c - 48))
                       mod 18446744073709551616 <? (n * 10) mod 18446744073709551616)
                    || (18446744073709551615 <?
                        ((n * 10) mod 18446744073709551616 + (byte c - 48))
                          mod 18446744073709551616)) with true by lia.
           split; [discriminate|]. intros (Hs & Hv & Hm). exfalso.
           pose proof (value_from_ge (n * 10 + (byte c - 48)) s ltac:(lia) Hs). lia.
    + simpl. split; [|intros ([=] & _)].
      destruct ((97 <=? Z.lor (byte c) 32) && (Z.lor (byte c) 32 <=? 122)) eqn:El;
        [|discriminate].
      replace (10 <=? Z.lor (byte c) 32 - 97 + 10) with true by lia. discriminate.
Qed.

Lemma is_int64_spec z :
  GoInt.is_int64 z = true <-> GoInt.MinInt64 <= z <= GoInt.MaxInt64.
Proof. unfold GoInt.is_int64. lia. Qed.

Lemma is_int32_spec z :
  GoInt.is_int32 z = true <-> GoInt.MinInt32 <= z <= GoInt.MaxInt32.
Proof. unfold GoInt.is_int32. lia. Qed.

Lemma ParseUint_spec s m :
  strconv.ParseUint s = inr m <->
  s <> EmptyString /\ all_digits s = true /\ value_from 0 s = m /\ m <= GoInt.MaxUint64.
Proof.
  unfold strconv.ParseUint. destruct s as [|c s].
  - split; [discriminate|]. intros (Hne & _). now contradiction Hne.
  - rewrite parse_digits_spec by (unfold GoInt.MaxUint64; lia).
    split; [intros (?&?&?)|intros (?&?&?&?)]; repeat split; auto; discriminate.
Qed.

Lemma ParseUint_cases s :
  match strconv.ParseUint s with
  | inr m => s <> EmptyString /\ all_digits s = true /\ value_from 0 s = m
             /\ m <= GoInt.MaxUint64
  | inl _ => ~ (s <> EmptyString /\ all_digits s = true
                /\ value_from 0 s <= GoInt.MaxUint64)
  end.
Proof.
  destruct (strconv.ParseUint s) as [e|m] eqn:E.
  - intros (H1 & H2 & H3).
    assert (E' : strconv.ParseUint s = inr (value_from 0 s))
      by (apply ParseUint_spec; auto).
    congruence.
  - now apply ParseUint_spec.
Qed.

Lemma all_digits_nonneg s n : 0 <= n -> all_digits s = true -> 0 <= value_from n s.
Proof. intros Hn Hs. pose proof (value_from_ge n s Hn Hs). lia. Qed.

Lemma digit_not_sign c :
  is_digit c = true -> c <> "+"%char /\ c <> "-"%char.
Proof.
  unfold is_digit. intros Hc. split; intros ->; vm_compute in Hc; discriminate.
Qed.

Lemma decimal_of_cases c s n :
  decimal_of (String c s) n <->
  (c = "-"%char /\ s <> EmptyString /\ all_digits s = true /\ n = - value_from 0 s)
  \/ (c = "+"%char /\ s <> EmptyString /\ all_digits s = true /\ n = value_from 0 s)
  \/ (all_digits (String c s) = true /\ n = value_from 0 (String c s)).
Proof.
  unfold decimal_of. split.
  - intros (sign & ds & E & Hs & Hne & Hd & Hn).
    destruct Hs as [-> | [-> | ->]]; string_simpl_in E.
    + subst ds. right; right. auto.
    + injection E as -> <-. right; left. auto.
    + injection E as -> <-. left. auto.
  - intros [(-> & Hne & Hd & ->)|[(-> & Hne & Hd & ->)|(Hd & ->)]].
    + exists "-", s. repeat split; auto.
    + exists "+", s. repeat split; auto.
    + exists "", (String c s). repeat split; auto; discriminate.
Qed.

(** [ParseInt] accepts exactly the decimal numerals of the [int64] range,
    and yields the number they denote. *)
Lemma ParseInt_spec s n :
  strconv.ParseInt s = inr n <-> decimal_of s n /\ GoInt.is_int64 n = true.
Proof.
  rewrite is_int64_spec. unfold GoInt.MinInt64, GoInt.MaxInt64.
  destruct s as [|c s].
  { split; [discriminate|]. intros ((sign & ds & E & _ & Hne & _) & _).
    destruct sign; [|discriminate]. rewrite append_nil_l in E. now subst ds. }
  rewrite decimal_of_cases. unfold strconv.ParseInt.
  destruct (Ascii.eqb_spec c "-") as [-> | Hm]; [|destruct (Ascii.eqb_spec c "+") as [-> | Hp]];
    cbn [orb andb negb Ascii.eqb Bool.eqb].
  - pose proof (ParseUint_cases s) as HU. unfold GoInt.MaxUint64 in HU.
    destruct (strconv.ParseUint s) as [[]|un].
    1,2: split; [discriminate|]; intros ([(_ & H1 & H2 & ->)|[([=] & _)|(Hd & _)]] & Hr);
         [|simpl in Hd; discriminate]; exfalso; apply HU; repeat split; auto;
         pose proof (all_digits_nonneg s 0 ltac:(lia) H2); lia.
    destruct HU as (H1 & H2 & H3 & H4).
    match type of H2 with all_digits ?x = _ =>
      pose proof (all_digits_nonneg x 0 ltac:(lia) H2) as Hpos end.
    destruct (9223372036854775808 <? un) eqn:Ec.
    + split; [discriminate|].
      intros ([(_ & _ & _ & ->)|[([=] & _)|(Hd & _)]] & Hr);
        [lia|simpl in Hd; discriminate].
    + split.
      * intros [= <-]. split; [left; repeat split; auto; lia|lia].
      * intros ([(_ & _ & _ & ->)|[([=] & _)|(Hd & _)]] & Hr);
          [f_equal; lia|simpl in Hd; discriminate].
  - pose proof (ParseUint_cases s) as HU. unfold GoInt.MaxUint64 in HU.
    destruct (strconv.ParseUint s) as [[]|un].
    1,2: split; [discriminate|]; intros ([([=] & _)|[(_ & H1 & H2 & ->)|(Hd & _)]] & Hr);
         [|simpl in Hd; discriminate]; exfalso; apply HU; repeat split; auto; lia.
    destruct HU as (H1 & H2 & H3 & H4).
    match type of H2 with all_digits ?x = _ =>
      pose proof (all_digits_nonneg x 0 ltac:(lia) H2) as Hpos end.
    destruct (9223372036854775808 <=? un) eqn:Ec.
    + split; [discriminate|].
      intros ([([=] & _)|[(_ & _ & _ & ->)|(Hd & _)]] & Hr);
        [lia|simpl in Hd; discriminate].
    + split.
      * intros [= <-]. split; [right; left; repeat split; auto; lia|lia].
      * intros ([([=] & _)|[(_ & _ & _ & ->)|(Hd & _)]] & Hr);
          [f_equal; lia|simpl in Hd; discriminate].
  - pose proof (ParseUint_cases (String c s)) as HU. unfold GoInt.MaxUint64 in HU.
    destruct (strconv.ParseUint (String c s)) as [[]|un].
    1,2: split; [discriminate|]; intros ([(-> & _)|[(-> & _)|(Hd & ->)]] & Hr);
         [now contradiction Hm|now contradiction Hp|];
         exfalso; apply HU; repeat split; auto; try discriminate; try lia.
    destruct HU as (H1 & H2 & H3 & H4).
    match type of H2 with all_digits ?x = _ =>
      pose proof (all_digits_nonneg x 0 ltac:(lia) H2) as Hpos end.
    destruct (9223372036854775808 <=? un) eqn:Ec.
    + split; [discriminate|].
      intros ([(-> & _)|[(-> & _)|(Hd & ->)]] & Hr);
        [now contradiction Hm|now contradiction Hp|lia].
    + split.
      * intros [= <-]. split; [right; right; auto|].
        pose proof (all_digits_nonneg (String c s) 0 ltac:(lia) H2). lia.
      * intros ([(-> & _)|[(-> & _)|(Hd & ->)]] & Hr);
          [now contradiction Hm|now contradiction Hp|f_equal; lia].
Qed.

Lemma FormatInt_decimal n :
  GoInt.is_int64 n = true -> decimal_of (strconv.FormatInt n) n.
Proof.
  rewrite is_int64_spec. unfold GoInt.MinInt64, GoInt.MaxInt64. intros Hn.
  unfold strconv.FormatInt, decimal_of. destruct (n <? 0) eqn:E.
  - destruct (FormatUint_spec (- n)) as (ds & -> & H1 & H2 & H3);
      [unfold GoInt.MaxUint64; lia|].
    exists "-", ds. repeat split; auto. simpl. lia.
  - destruct (FormatUint_spec n) as (ds & -> & H1 & H2 & H3);
      [unfold GoInt.MaxUint64; lia|].
    exists "", ds. repeat split; auto.
Qed.

(** Formatting and parsing are inverse on the whole [int64] range. *)
Lemma ParseInt_FormatInt n :
  GoInt.is_int64 n = true -> strconv.ParseInt (strconv.FormatInt n) = inr n.
Proof.
  intros Hn. apply ParseInt_spec. split; [now apply FormatInt_decimal|assumption].
Qed.

Lemma ParseInt_is_int64 s n : strconv.ParseInt s = inr n -> GoInt.is_int64 n = true.
Proof. intros E. now apply ParseInt_spec in E. Qed.

(** *** Splitting *)

Lemma Split_nonempty s sep : Split s sep <> [].
Proof.
  induction s as [|a s IH]; simpl; [discriminate|].
  destruct (Ascii.eqb a sep); [discriminate|]. destruct (Split s sep); [congruence|discriminate].
Qed.

Lemma Split_no_sep s sep : contains s sep = false -> Split s sep = [s].
Proof.
  induction s as [|a s IH]; simpl; [reflexivity|].
  intros Hc. apply orb_false_elim in Hc as [Ha Hs]. rewrite Ha, IH; auto.
Qed.

Lemma Split_app a b sep :
  contains a sep = false -> Split (a ++ String sep b) sep = a :: Split b sep.
Proof.
  induction a as [|x a IH]; string_simpl.
  - now rewrite Ascii.eqb_refl.
  - intros Hc. apply orb_false_elim in Hc as [Hx Ha]. rewrite Hx, IH; auto.
Qed.

Lemma Split_one s sep p :
  Split s sep = [p] -> p = s /\ contains s sep = false.
Proof.
  revert p. induction s as [|x s IH]; intros p; simpl.
  - intros [= <-]. auto.
  - pose proof (Split_nonempty s sep) as Hne.
    destruct (Ascii.eqb x sep) eqn:Ex.
    + destruct (Split s sep); [congruence|discriminate].
    + destruct (Split s sep) as [|q rest]; [congruence|].
      intros [= <- ->]. destruct (IH q eq_refl) as [-> Hs]. auto.
Qed.

(** The pieces determine the string: two pieces are a string with exactly
    one separator. *)
Lemma Split_two s sep a b :
  Split s sep = [a; b] <->
  s = a ++ String sep b /\ contains a sep = false /\ contains b sep = false.
Proof.
  split.
  - revert a. induction s as [|x s IH]; intros a; simpl; [discriminate|].
    pose proof (Split_nonempty s sep) as Hne.
    destruct (Ascii.eqb_spec x sep) as [-> | Hx].
    + intros [= <- Hs]. apply Split_one in Hs as [-> Hs]. auto.
    + destruct (Split s sep) as [|q rest] eqn:Es; [congruence|].
      intros [= <- ->]. destruct (IH q eq_refl) as (-> & Hq & Hb).
      string_simpl. repeat split; auto.
      apply orb_false_intro; auto. now apply Ascii.eqb_neq.
  - intros (-> & Ha & Hb). rewrite Split_app, Split_no_sep; auto.
Qed.

(** ** The Pages codec *)

(** What [UnmarshalJSON] accepts: a literal that unquotes to a numeral,
    one space and the word pages. *)
Lemma UnmarshalJSON_spec jsVal n :
  UnmarshalJSON jsVal = inr n <->
  exists a, strconv.Unquote jsVal = Some (a ++ " pages")
            /\ contains a " " = false /\ strconv.ParseInt a = inr n.
Proof.
  unfold UnmarshalJSON. split.
  - destruct (strconv.Unquote jsVal) as [u|]; [|discriminate].
    destruct (Split u " ") as [|a [|b [|c rest]]] eqn:Es; simpl; try discriminate.
    destruct (String.eqb_spec b "pages") as [-> | Hb]; simpl; [|discriminate].
    destruct (strconv.ParseInt a) as [e|i] eqn:Ep; [discriminate|].
    intros [= <-]. apply Split_two in Es as (-> & Ha & _). exists a. auto.
  - intros (a & -> & Ha & Hp).
    assert (Es : Split (a ++ " pages") " " = [a; "pages"])
      by (apply Split_two; auto).
    rewrite Es. simpl. now rewrite Hp.
Qed.

Lemma UnmarshalJSON_error jsVal e :
  UnmarshalJSON jsVal = inl e -> e = ErrInvalidCountPagesFormat.
Proof.
  unfold UnmarshalJSON. destruct (strconv.Unquote jsVal); [|congruence].
  destruct (_ || _); [congruence|]. destruct (strconv.ParseInt _); congruence.
Qed.

(** *** Literals without escapes *)

Lemma plain_app a b : plain (a ++ b) = plain a && plain b.
Proof.
  induction a as [|c a IH]; string_simpl; [reflexivity|]. now rewrite IH, andb_assoc.
Qed.

Lemma digit_plain c : is_digit c = true -> plain_byte c = true.
Proof. unfold is_digit, plain_byte. lia. Qed.

Lemma all_digits_plain s : all_digits s = true -> plain s = true.
Proof.
  induction s as [|c s IH]; simpl; [reflexivity|].
  intros H. apply andb_prop in H as [Hc Hs]. now rewrite digit_plain, IH.
Qed.

Lemma FormatInt_plain n : GoInt.is_int64 n = true -> plain (strconv.FormatInt n) = true.
Proof.
  intros Hn. destruct (FormatInt_decimal n Hn) as (sign & ds & -> & Hs & _ & Hd & _).
  rewrite plain_app, (all_digits_plain ds Hd).
  destruct Hs as [-> | [-> | ->]]; reflexivity.
Qed.

Lemma FormatInt_no_space n :
  GoInt.is_int64 n = true -> contains (strconv.FormatInt n) " " = false.
Proof.
  intros Hn. destruct (FormatInt_decimal n Hn) as (sign & ds & -> & Hs & _ & Hd & _).
  rewrite contains_app.
  assert (Hds : contains ds " " = false).
  { clear -Hd. induction ds as [|c ds IH]; simpl in *; [reflexivity|].
    apply andb_prop in Hd as [Hc Hd]. rewrite IH by assumption.
    rewrite eqb_byte. unfold is_digit in Hc. change (byte " ") with 32.
    rewrite orb_false_r. lia. }
  rewrite Hds. destruct Hs as [-> | [-> | ->]]; reflexivity.
Qed.

Lemma plain_byte_facts c :
  plain_byte c = true ->
  byte c < 128 /\ Ascii.eqb c dquote = false /\ Ascii.eqb c backslash = false
  /\ Ascii.eqb c (chr 10) = false /\ 32 <= byte c <= 126.
Proof.
  unfold plain_byte. rewrite !eqb_byte.
  change (byte dquote) with 34. change (byte backslash) with 92.
  change (byte (chr 10)) with 10. lia.
Qed.

Lemma quote_from_plain `{UnicodeTables} fuel s :
  plain s = true -> (String.length s <= fuel)%nat -> strconv.quote_from fuel s = s.
Proof.
  revert s. induction fuel as [|fuel IH]; intros [|c s] Hp Hl; simpl in *;
    try reflexivity; try lia.
  apply andb_prop in Hp as [Hc Hs].
  destruct (plain_byte_facts c Hc) as (H1 & H2 & H3 & H4 & H5).
  unfold utf8.RuneSelf, utf8.RuneError.
  replace (128 <=? byte c) with false by lia.
  replace ((1 =? 1) && (byte c =? 65533)) with false by lia.
  unfold strconv.appendEscapedRune, strconv.IsPrint.
  replace ((byte c =? 34) || (byte c =? 92)) with false.
  2:{ rewrite !eqb_byte in H2, H3. change (byte dquote) with 34 in H2.
      change (byte backslash) with 92 in H3. lia. }
  replace (byte c <=? 255) with true by lia.
  replace ((32 <=? byte c) && (byte c <=? 126)) with true by lia.
  unfold utf8.EncodeRune, utf8.between.
  replace ((0 <=? byte c) && (byte c <=? 127)) with true by lia.
  rewrite chr_byte. string_simpl. rewrite IH; auto. lia.
Qed.

(** [Quote] on a plain string only adds the two quotes. *)
Lemma Quote_plain `{UnicodeTables} s : plain s = true -> strconv.Quote s = quoted s.
Proof.
  intros Hp. unfold strconv.Quote, quoted. now rewrite quote_from_plain.
Qed.

Lemma index_plain s rest :
  plain s = true -> strconv.index (s ++ String dquote rest) dquote = Some (String.length s).
Proof.
  induction s as [|c s IH]; string_simpl; [reflexivity|].
  intros Hp. apply andb_prop in Hp as [Hc Hs].
  destruct (plain_byte_facts c Hc) as (_ & -> & _). now rewrite IH.
Qed.

Lemma take_bytes_app s rest : strconv.take_bytes (String.length s) (s ++ rest) = s.
Proof.
  induction s as [|c s IH]; string_simpl; [now destruct rest|]. now rewrite IH.
Qed.

Lemma drop_bytes_app s rest : utf8.drop_bytes (String.length s) (s ++ rest) = rest.
Proof. induction s as [|c s IH]; string_simpl; auto. Qed.

Lemma plain_contains s :
  plain s = true -> contains s backslash = false /\ contains s (chr 10) = false.
Proof.
  induction s as [|c s IH]; simpl; [auto|].
  intros Hp. apply andb_prop in Hp as [Hc Hs].
  destruct (plain_byte_facts c Hc) as (_ & _ & -> & -> & _). auto.
Qed.

Lemma plain_valid fuel s :
  plain s = true -> (String.length s <= fuel)%nat -> utf8.valid_from fuel s = true.
Proof.
  revert s. induction fuel as [|fuel IH]; intros [|c s] Hp Hl; simpl in *;
    try reflexivity; try lia.
  apply andb_prop in Hp as [Hc Hs].
  destruct (plain_byte_facts c Hc) as (H1 & _ & _ & _ & H5).
  replace (byte c <? 128) with true by lia.
  unfold utf8.RuneError. replace ((byte c =? 65533) && (1 =? 1)) with false by lia.
  simpl. apply IH; auto. lia.
Qed.

Lemma drop_bytes_app_cons s c rest :
  utf8.drop_bytes (S (String.length s)) (s ++ String c rest) = rest.
Proof. induction s as [|x s IH]; string_simpl; auto. Qed.

(** [Unquote] on a quoted plain string only removes the two quotes. *)
Lemma Unquote_plain s : plain s = true -> strconv.Unquote (quoted s) = Some s.
Proof.
  intros Hp. unfold strconv.Unquote, strconv.unquote, quoted.
  destruct (s ++ String dquote EmptyString) as [|c0 s1] eqn:E.
  { destruct s; discriminate. }
  rewrite <- E. rewrite index_plain by assumption.
  rewrite take_bytes_app, drop_bytes_app_cons.
  destruct (plain_contains s Hp) as [-> ->].
  unfold utf8.ValidString. rewrite plain_valid by auto.
  reflexivity.
Qed.

(** *** The fuel of [unquote_loop] is enough *)

Lemma drop_bytes_length n s :
  String.length (utf8.drop_bytes n s) = (String.length s - n)%nat.
Proof.
  revert s. induction n as [|n IH]; intros [|c s]; simpl; auto.
Qed.

Lemma DecodeRune_size c s :
  1 <= snd (utf8.DecodeRuneInString (String c s)) <= 4.
Proof.
  unfold utf8.DecodeRuneInString.
  repeat match goal with
         | |- context [match ?x with EmptyString => _ | String _ _ => _ end] => destruct x
         | |- context [if ?b then _ else _] => destruct b
         end; simpl; lia.
Qed.

Lemma read_hex_length n s v v' s' :
  strconv.read_hex n s v = Some (v', s') -> (String.length s' <= String.length s)%nat.
Proof.
  revert s v. induction n as [|n IH]; intros s v; simpl.
  - intros [= _ <-]. lia.
  - destruct s as [|c s]; [discriminate|]. destruct (strconv.unhex (byte c)); [|discriminate].
    intros E. apply IH in E. simpl. lia.
Qed.

Lemma read_octal_length n s v v' s' :
  strconv.read_octal n s v = Some (v', s') -> (String.length s' <= String.length s)%nat.
Proof.
  revert s v. induction n as [|n IH]; intros s v; simpl.
  - intros [= _ <-]. lia.
  - destruct s as [|c s]; [discriminate|]. destruct (_ || _); [discriminate|].
    intros E. apply IH in E. simpl. lia.
Qed.

Lemma UnquoteChar_shorter s quote r multibyte rem :
  strconv.UnquoteChar s quote = Some (r, multibyte, rem) ->
  (String.length rem < String.length s)%nat.
Proof.
  unfold strconv.UnquoteChar. destruct s as [|c rest]; [discriminate|].
  destruct (_ && _); [discriminate|].
  destruct (utf8.RuneSelf <=? byte c).
  { pose proof (DecodeRune_size c rest) as Hsz.
    destruct (utf8.DecodeRuneInString (String c rest)) as [r0 size]. simpl in Hsz.
    intros [= _ _ <-]. rewrite drop_bytes_length. simpl. lia. }
  destruct (negb (Ascii.eqb c backslash)); [intros [= _ _ <-]; simpl; lia|].
  destruct rest as [|e s2]; [discriminate|].
  repeat match goal with
         | |- (if ?b then _ else _) = _ -> _ => destruct b
         end;
    try (intros [= _ _ <-]; simpl; lia); try discriminate.
  - destruct (strconv.read_hex _ s2 0) as [[v s3]|] eqn:E; [|discriminate].
    apply read_hex_length in E.
    repeat match goal with
           | |- (if ?b then _ else _) = _ -> _ => destruct b
           end; try discriminate; intros [= _ _ <-]; simpl; lia.
  - destruct (strconv.read_octal 2 s2 _) as [[v s3]|] eqn:E; [|discriminate].
    apply read_octal_length in E.
    destruct (255 <? v); [discriminate|]. intros [= _ _ <-]. simpl. lia.
Qed.

Lemma unquote_loop_fuel fuel quote s buf :
  (String.length s <= fuel)%nat -> strconv.unquote_loop fuel quote s buf <> strconv.LoopFuel.
Proof.
  revert s buf. induction fuel as [|fuel IH]; intros s buf Hl.
  - destruct s; simpl in *; [discriminate|lia].
  - destruct s as [|c rest]; cbn [strconv.unquote_loop]; [discriminate|].
    destruct (Ascii.eqb c quote); [discriminate|].
    destruct (strconv.UnquoteChar (String c rest) quote) as [[[r mb] rem]|] eqn:E;
      [|discriminate].
    apply UnquoteChar_shorter in E. cbn [String.length] in E, Hl.
    destruct (byte c =? 10); [discriminate|].
    destruct (Ascii.eqb quote squote); [discriminate|].
    apply IH. lia.
Qed.

Lemma valid_from_fuel fuel1 fuel2 s :
  (String.length s <= fuel1)%nat -> (String.length s <= fuel2)%nat ->
  utf8.valid_from fuel1 s = utf8.valid_from fuel2 s.
Proof.
  revert fuel2 s. induction fuel1 as [|fuel1 IH]; intros fuel2 s H1 H2.
  - destruct s; [now destruct fuel2|simpl in H1; lia].
  - destruct s as [|c rest]; [now destruct fuel2|].
    destruct fuel2 as [|fuel2]; [simpl in H2; lia|].
    cbn [utf8.valid_from].
    pose proof (DecodeRune_size c rest) as Hsz.
    destruct (utf8.DecodeRuneInString (String c rest)) as [r n]. simpl in Hsz.
    destruct (_ && _); [reflexivity|].
    apply IH; rewrite drop_bytes_length; cbn [String.length] in *; lia.
Qed.

Lemma quote_from_fuel `{UnicodeTables} fuel1 fuel2 s :
  (String.length s <= fuel1)%nat -> (String.length s <= fuel2)%nat ->
  strconv.quote_from fuel1 s = strconv.quote_from fuel2 s.
Proof.
  revert fuel2 s. induction fuel1 as [|fuel1 IH]; intros fuel2 s H1 H2.
  - destruct s; [now destruct fuel2|simpl in H1; lia].
  - destruct s as [|c rest]; [now destruct fuel2|].
    destruct fuel2 as [|fuel2]; [simpl in H2; lia|].
    cbn [strconv.quote_from].
    pose proof (DecodeRune_size c rest) as Hsz.
    destruct (utf8.RuneSelf <=? byte c).
    + destruct (utf8.DecodeRuneInString (String c rest)) as [r n]. simpl in Hsz.
      f_equal. apply IH; rewrite drop_bytes_length; cbn [String.length] in *; lia.
    + f_equal. apply IH; rewrite drop_bytes_length; cbn [String.length] in *; lia.
Qed.

(** *** The validator *)

Lemma Check_lookup_ne v ok key message k :
  k <> key ->
  validator.Errors (validator.Check v ok key message) !! k = validator.Errors v !! k.
Proof.
  intros Hne. unfold validator.Check.
  destruct ok; [reflexivity|]. simpl. now rewrite lookup_insert_ne.
Qed.

Lemma Check_lookup_eq v ok key message :
  validator.Errors (validator.Check v ok key message) !! key =
  if ok then validator.Errors v !! key else Some message.
Proof.
  unfold validator.Check. destruct ok; [reflexivity|].
  simpl. now rewrite lookup_insert_eq.
Qed.

Lemma Valid_lookup v k m :
  validator.Errors v !! k = Some m -> validator.Valid v = false.
Proof.
  intros E. unfold validator.Valid. apply bool_decide_eq_false.
  intros Hempty. rewrite Hempty, lookup_empty in E. discriminate.
Qed.

(** The error that [ValidateBook] files under pages, starting from an empty
    validator: none for a positive count, and otherwise the message of the
    second of the two checks, which then fails whether or not the first
    does. *)
Lemma ValidateBook_pages current_year book :
  validator.Errors (ValidateBook current_year validator.New book) !! "pages" =
  if 0 <? Pages book then None else Some "must be a positive integer".
Proof.
  unfold ValidateBook.
  rewrite !(Check_lookup_ne _ _ "genres") by discriminate.
  rewrite !Check_lookup_eq.
  rewrite !(Check_lookup_ne _ _ "year") by discriminate.
  rewrite !(Check_lookup_ne _ _ "title") by discriminate.
  unfold validator.New. simpl. rewrite lookup_empty.
  destruct (0 <? Pages book) eqn:E1; [|reflexivity].
  now replace (negb (Pages book =? 0)) with true by lia.
Qed.

(** ** Claims about the Pages codec *)

(** The decoder on the inputs of section 8 of the specification, and on
    input that is not a string literal at all. *)
Example UnmarshalJSON_examples :
  UnmarshalJSON (quoted "42 pages") = inr 42
  /\ UnmarshalJSON (quoted "42") = inl ErrInvalidCountPagesFormat
  /\ UnmarshalJSON (quoted "42 page") = inl ErrInvalidCountPagesFormat
  /\ UnmarshalJSON (quoted "abc pages") = inl ErrInvalidCountPagesFormat
  /\ UnmarshalJSON (quoted " 42 pages") = inl ErrInvalidCountPagesFormat
  /\ UnmarshalJSON (quoted "9223372036854775808 pages") = inl ErrInvalidCountPagesFormat
  /\ UnmarshalJSON "42" = inl ErrInvalidCountPagesFormat.
Proof. repeat split; reflexivity. Qed.

(** C4. For every representable integer n (an int64), encoding gives the
    JSON text of the string "<n> pages", where <n> is the decimal numeral
    of n, and decoding that encoding gives n back. *)
Theorem Pages_round_trip `{UnicodeTables} (n : Z) :
  GoInt.is_int64 n = true ->
  MarshalJSON n = quoted (strconv.FormatInt n ++ " pages")
  /\ decimal_of (strconv.FormatInt n) n
  /\ UnmarshalJSON (MarshalJSON n) = inr n.
Proof.
  intros Hn.
  assert (Hplain : plain (Sprintf_d_pages n) = true).
  { unfold Sprintf_d_pages. now rewrite plain_app, FormatInt_plain. }
  assert (HM : MarshalJSON n = quoted (strconv.FormatInt n ++ " pages")).
  { unfold MarshalJSON. now rewrite Quote_plain. }
  split; [assumption|]. split; [now apply FormatInt_decimal|].
  rewrite HM. apply UnmarshalJSON_spec. exists (strconv.FormatInt n).
  split; [now apply Unquote_plain|].
  split; [now apply FormatInt_no_space|now apply ParseInt_FormatInt].
Qed.

Lemma Pages_round_trip_witness :
  GoInt.is_int64 42 = true
  /\ (MarshalJSON 42 = quoted "42 pages"
      /\ decimal_of "42" 42
      /\ UnmarshalJSON (MarshalJSON 42) = inr 42).
Proof.
  split; [reflexivity|]. exact (Pages_round_trip 42 eq_refl).
Defined.

(** C5, as amended.  Decoding succeeds exactly when the JSON value is a
    string literal whose text is a numeral, one space (U+0020) and the
    literal pages, where the numeral contains no space and is a decimal
    integer (optional sign, at least one digit) in the int64 range; the
    result is then that integer.  Every failure is InvalidFormat.  The
    separator is a single space, not arbitrary whitespace. *)
Theorem UnmarshalJSON_accepts (jsVal : string) :
  (forall n, UnmarshalJSON jsVal = inr n <->
             exists a, strconv.Unquote jsVal = Some (a ++ " pages")
                       /\ contains a " " = false
                       /\ decimal_of a n /\ GoInt.is_int64 n = true)
  /\ (forall e, UnmarshalJSON jsVal = inl e -> e = ErrInvalidCountPagesFormat).
Proof.
  split; [|apply UnmarshalJSON_error].
  intros n. rewrite UnmarshalJSON_spec.
  split; intros (a & Hu & Ha & Hp); exists a; repeat split; auto;
    try (now apply ParseInt_spec in Hp); try (apply ParseInt_spec; tauto).
Qed.

Lemma UnmarshalJSON_accepts_witness :
  UnmarshalJSON (quoted "42 pages") = inr 42
  /\ (forall e, UnmarshalJSON (quoted "42 page") = inl e ->
                e = ErrInvalidCountPagesFormat).
Proof.
  destruct (UnmarshalJSON_accepts (quoted "42 pages")) as [Hok _].
  destruct (UnmarshalJSON_accepts (quoted "42 page")) as [_ Herr].
  split; [|exact Herr].
  apply Hok. exists "42".
  split; [reflexivity|]. split; [reflexivity|]. split; [|reflexivity].
  exists "", "42".
  split; [reflexivity|]. split; [now left|]. split; [discriminate|].
  split; reflexivity.
Defined.

(** C5, as stated, fails: a numeral and the literal pages separated by a
    tab are two whitespace-separated tokens of the required form, yet the
    decoder rejects them. *)
Lemma UnmarshalJSON_rejects_tab :
  let js := quoted ("42" ++ String backslash "tpages") in
  let text := "42" ++ String (chr 9) "pages" in
  strconv.Unquote js = Some text
  /\ spec_accepts text = true
  /\ UnmarshalJSON js = inl ErrInvalidCountPagesFormat.
Proof. vm_compute. auto. Qed.

(** The same holds for two spaces between the tokens. *)
Lemma UnmarshalJSON_rejects_two_spaces :
  spec_accepts "42  pages" = true
  /\ UnmarshalJSON (quoted "42  pages") = inl ErrInvalidCountPagesFormat.
Proof. vm_compute. auto. Qed.

(** C10. The codec has no positivity constraint: for every int64 n, zero
    and negative values included, the JSON string "<n> pages" decodes to
    n.  Positivity is enforced by ValidateBook: a book whose page count is
    not positive gets an error under the key pages and is not valid, and a
    positive count gets none. *)
Theorem Pages_decode_no_positivity (n : Z) :
  GoInt.is_int64 n = true ->
  UnmarshalJSON (quoted (strconv.FormatInt n ++ " pages")) = inr n
  /\ forall current_year book, Pages book = n ->
       (n <= 0 ->
        is_Some (validator.Errors (ValidateBook current_year validator.New book) !! "pages")
        /\ validator.Valid (ValidateBook current_year validator.New book) = false)
       /\ (0 < n ->
           validator.Errors (ValidateBook current_year validator.New book) !! "pages" = None).
Proof.
  intros Hn. split.
  - apply UnmarshalJSON_spec. exists (strconv.FormatInt n).
    split; [|split; [now apply FormatInt_no_space|now apply ParseInt_FormatInt]].
    apply Unquote_plain. now rewrite plain_app, FormatInt_plain.
  - intros current_year book Hb. pose proof (ValidateBook_pages current_year book) as E.
    rewrite Hb in E. split; intros Hs.
    + assert (Hsome : is_Some (validator.Errors
                                 (ValidateBook current_year validator.New book) !! "pages")).
      { rewrite E. replace (0 <? n) with false by lia. eauto. }
      split; [assumption|]. destruct Hsome as [m Hm]. eapply Valid_lookup, Hm.
    + rewrite E. now replace (0 <? n) with true by lia.
Qed.

Lemma Pages_decode_no_positivity_witness :
  GoInt.is_int64 (-5) = true
  /\ UnmarshalJSON (quoted "-5 pages") = inr (-5)
  /\ validator.Valid
       (ValidateBook 2025 validator.New
          {| ID := 1; Created := 0; Title := "Dune"; Year := 1965; Pages := -5;
             Genres := Some ["sf"]; Version := 1 |}) = false.
Proof.
  split; [reflexivity|].
  destruct (Pages_decode_no_positivity (-5) eq_refl) as [Hdec Hval].
  split; [exact Hdec|].
  refine (proj2 (proj1 (Hval 2025 {| ID := 1; Created := 0; Title := "Dune"; Year := 1965;
                                    Pages := -5; Genres := Some ["sf"]; Version := 1 |}
                          eq_refl) _)).
  lia.
Defined.

(** ** Claims about the record store *)

Section StoreClaims.
Context `{Postgres}.

(** What a fault does to each method: a failure before the statement
    has run leaves everything as it was; when the reply is lost the store
    is as the statement left it, the book is as [Scan] left it if the
    failure came after the scan, and the caller has an error all the
    same. *)
Lemma Update_fault fault s book :
  Update fault s book =
  match fault with
  | None => Update None s book
  | Some (refused msg) => (s, book, Some (ErrStore (driver_failure msg)))
  | Some (reply_lost msg scanned) =>
      ((Update None s book).1.1,
       if scanned then (Update None s book).1.2 else book,
       Some (ErrStore (driver_failure msg)))
  end.
Proof.
  destruct fault as [[msg|msg sc]|]; try reflexivity.
  unfold Update, sql_update, round_trip, scanned_row.
  destruct (update_statement _ _ _ _ _ _ _) as [s1 [[| |]|[|v rest]]];
    destruct sc; reflexivity.
Qed.

Lemma Insert_fault fault now s book :
  Insert fault now s book =
  match fault with
  | None => Insert None now s book
  | Some (refused msg) => (s, book, Some (ErrStore (driver_failure msg)))
  | Some (reply_lost msg scanned) =>
      ((Insert None now s book).1.1,
       if scanned then (Insert None now s book).1.2 else book,
       Some (ErrStore (driver_failure msg)))
  end.
Proof.
  destruct fault as [[msg|msg sc]|]; try reflexivity.
  unfold Insert, sql_insert, round_trip, scanned_row.
  destruct (insert_statement _ _ _ _ _ _) as [s1 [e|[|x rest]]];
    destruct sc; reflexivity.
Qed.

Lemma Delete_fault fault s id :
  Delete fault s id =
  match fault with
  | None => Delete None s id
  | Some (refused msg) =>
      (s, Some (if id <? 1 then ErrRecordNotFound else ErrStore (driver_failure msg)))
  | Some (reply_lost msg _) =>
      ((Delete None s id).1,
       Some (if id <? 1 then ErrRecordNotFound else ErrStore (driver_failure msg)))
  end.
Proof.
  destruct fault as [[msg|msg sc]|]; try reflexivity;
    unfold Delete, sql_delete, round_trip; destruct (id <? 1); try reflexivity.
  destruct (delete_statement _ _) as [s1 [e|n]]; simpl; [reflexivity|].
  now destruct (n =? 0).
Qed.

Lemma Get_fault fault s id :
  Get fault s id =
  match fault with
  | None => Get None s id
  | Some (refused msg) | Some (reply_lost msg _) =>
      if id <? 1 then inl ErrRecordNotFound else inl (ErrStore (driver_failure msg))
  end.
Proof.
  destruct fault as [[msg|msg sc]|]; try reflexivity;
    unfold Get, sql_select_by_id, round_trip_query; now destruct (id <? 1).
Qed.

Lemma Update_ok fault s book s' book' :
  Update fault s book = (s', book', None) -> fault = None.
Proof. rewrite Update_fault. now destruct fault as [[msg|msg sc]|]. Qed.

Lemma Insert_ok fault now s book s' book' :
  Insert fault now s book = (s', book', None) -> fault = None.
Proof. rewrite Insert_fault. now destruct fault as [[msg|msg sc]|]. Qed.

Lemma Delete_ok fault s id s' :
  Delete fault s id = (s', None) -> fault = None.
Proof. rewrite Delete_fault. now destruct fault as [[msg|msg sc]|]. Qed.

Lemma Get_ok fault s id b :
  Get fault s id = inr b -> fault = None.
Proof.
  rewrite Get_fault. destruct fault as [[msg|msg sc]|]; [| |reflexivity];
    now destruct (id <? 1).
Qed.

(** The parameters of [Update] bind exactly when each is accepted at the
    type of its column. *)
Lemma binds_spec book :
  binds book = true <->
  text_in (Title book) = true
  /\ GoInt.is_int32 (Year book) = true /\ GoInt.is_int32 (Pages book) = true
  /\ (forall g, Genres book = Some g -> forallb text_in g = true)
  /\ GoInt.is_int64 (ID book) = true /\ GoInt.is_int32 (Version book) = true.
Proof.
  unfold binds, update_params, bind, bind_text, bind_integer, bind_bigint,
    bind_text_array.
  destruct (text_in (Title book)), (GoInt.is_int32 (Year book)),
    (GoInt.is_int32 (Pages book)), (Genres book) as [g|],
    (GoInt.is_int64 (ID book)), (GoInt.is_int32 (Version book));
    try destruct (forallb text_in g) eqn:Eg;
    split; try discriminate; try tauto;
    try (intros _; repeat split; auto; congruence);
    intros (? & ? & ? & Hg & ? & ?); try discriminate;
    specialize (Hg _ eq_refl); congruence.
Qed.

(** [Update] by cases, when the round trip goes through. *)
Lemma Update_cases s book :
  Update None s book =
  match bind (update_params book) with
  | Some sqlstate => (s, book, Some (ErrStore (pq_Error sqlstate)))
  | None =>
      match books s !! ID book with
      | None => (s, book, Some ErrEditConflict)
      | Some r =>
          if row_version r =? Version book then
            match Genres book with
            | None => (s, book, Some (ErrStore (pq_Error "23502")))
            | Some g =>
                if negb (GoInt.is_int32 (row_version r + 1))
                then (s, book, Some (ErrStore (pq_Error "22003")))
                else (with_books s (<[ID book := updated_row r book g]> (books s)),
                      set_Version book (row_version r + 1), None)
            end
          else (s, book, Some ErrEditConflict)
      end
  end.
Proof.
  unfold Update, sql_update, round_trip, update_statement, update_params, updated_row.
  destruct (bind _); [reflexivity|].
  destruct (books s !! ID book) as [r|]; [|reflexivity].
  destruct (row_version r =? Version book); [|reflexivity].
  destruct (Genres book); [|reflexivity].
  destruct (negb _); reflexivity.
Qed.

(** An [Update] that finds no row with its id and version writes nothing;
    it reports EditConflict if its parameters bind, and otherwise the error
    of the parameter that is refused. *)
Lemma Update_no_match s book :
  (forall r, books s !! ID book = Some r -> row_version r <> Version book) ->
  Update None s book
  = (s, book, Some match bind (update_params book) with
                   | Some sqlstate => ErrStore (pq_Error sqlstate)
                   | None => ErrEditConflict
                   end).
Proof.
  intros Hv. rewrite Update_cases.
  destruct (bind _); [reflexivity|].
  destruct (books s !! ID book) as [r|]; [|reflexivity].
  specialize (Hv r eq_refl).
  now replace (row_version r =? Version book) with false by lia.
Qed.

Lemma Update_stale s book r :
  books s !! ID book = Some r -> row_version r <> Version book ->
  Update None s book
  = (s, book, Some match bind (update_params book) with
                   | Some sqlstate => ErrStore (pq_Error sqlstate)
                   | None => ErrEditConflict
                   end).
Proof.
  intros Hr Hv. apply Update_no_match. intros r' Hr'. congruence.
Qed.

(** What an [Update] can have done to the store, whatever it returns:
    nothing, or the one write of the statement; the write goes with
    success, or with a reply that was lost. *)
Lemma Update_effect fault s book s' book' err :
  Update fault s book = (s', book', err) ->
  (s' = s /\ err <> None)
  \/ exists r g,
       books s !! ID book = Some r /\ row_version r = Version book
       /\ Genres book = Some g
       /\ s' = with_books s (<[ID book := updated_row r book g]> (books s))
       /\ (err = None
           \/ (lost fault = true
               /\ exists msg, err = Some (ErrStore (driver_failure msg)))).
Proof.
  assert (HN : forall s1 b1 e1,
            Update None s book = (s1, b1, e1) ->
            (s1 = s /\ e1 <> None)
            \/ exists r g,
                 books s !! ID book = Some r /\ row_version r = Version book
                 /\ Genres book = Some g
                 /\ s1 = with_books s (<[ID book := updated_row r book g]> (books s))
                 /\ e1 = None).
  { intros s1 b1 e1. rewrite Update_cases.
    destruct (bind _); [intros [= <- <- <-]; left; auto|].
    destruct (books s !! ID book) as [r|]; [|intros [= <- <- <-]; left; auto].
    destruct (row_version r =? Version book) eqn:Ev;
      [|intros [= <- <- <-]; left; auto].
    destruct (Genres book) as [g|]; [|intros [= <- <- <-]; left; auto].
    destruct (negb _); [intros [= <- <- <-]; left; auto|].
    intros [= <- <- <-]. right. exists r, g. repeat split; auto. lia. }
  rewrite Update_fault. destruct fault as [[msg|msg sc]|].
  - intros [= <- <- <-]. left. split; [reflexivity|discriminate].
  - destruct (Update None s book) as [[s1 b1] e1] eqn:E1.
    destruct (HN _ _ _ eq_refl) as [[-> _]|(r & g & Hr & Hv & Hg & -> & _)];
      intros [= <- <- <-]; [left; split; [reflexivity|discriminate]|].
    right. exists r, g. repeat split; auto. right. eauto.
  - intros E. destruct (HN _ _ _ E) as [Hs|(r & g & Hr & Hv & Hg & -> & ->)];
      [left; auto|].
    right. exists r, g. repeat split; auto.
Qed.

(** The same for [Insert]: nothing but the sequence, or the one new row
    under the next id. *)
Lemma Insert_effect fault now s book s' book' err :
  Insert fault now s book = (s', book', err) ->
  (books s' = books s /\ err <> None)
  \/ exists g,
       Genres book = Some g /\ books s !! books_id_seq s = None
       /\ books s'
          = <[books_id_seq s :=
                {| row_created := now; row_title := Title book;
                   row_year := Year book; row_pages := Pages book;
                   row_genres := g; row_version := 1 |}]> (books s)
       /\ (err = None
           \/ (lost fault = true
               /\ exists msg, err = Some (ErrStore (driver_failure msg)))).
Proof.
  assert (HN : forall s1 b1 e1,
            Insert None now s book = (s1, b1, e1) ->
            (books s1 = books s /\ e1 <> None)
            \/ exists g,
                 Genres book = Some g /\ books s !! books_id_seq s = None
                 /\ books s1
                    = <[books_id_seq s :=
                          {| row_created := now; row_title := Title book;
                             row_year := Year book; row_pages := Pages book;
                             row_genres := g; row_version := 1 |}]> (books s)
                 /\ e1 = None).
  { intros s1 b1 e1. unfold Insert, sql_insert, round_trip, insert_statement.
    destruct (bind _); [intros [= <- <- <-]; left; auto|].
    destruct (GoInt.MaxInt64 <? books_id_seq s);
      [intros [= <- <- <-]; left; auto|].
    destruct (Genres book) as [g|]; [|intros [= <- <- <-]; left; auto].
    destruct (books s !! books_id_seq s) eqn:Ef;
      [intros [= <- <- <-]; left; auto|].
    simpl. intros [= <- <- <-]. right. exists g. repeat split; auto. }
  rewrite Insert_fault. destruct fault as [[msg|msg sc]|].
  - intros [= <- <- <-]. left. split; [reflexivity|discriminate].
  - destruct (Insert None now s book) as [[s1 b1] e1] eqn:E1.
    destruct (HN _ _ _ eq_refl) as [[Hs _]|(g & Hg & Hf & Hs & _)];
      intros [= <- <- <-]; [left; split; [assumption|discriminate]|].
    right. exists g. repeat split; auto. right. eauto.
  - intros E. destruct (HN _ _ _ E) as [Hs|(g & Hg & Hf & Hs & ->)];
      [left; auto|].
    right. exists g. repeat split; auto.
Qed.

(** [Get], [Delete] and [Insert] by cases, when the round trip goes
    through. *)
Lemma Get_cases s id :
  Get None s id =
  if id <? 1 then inl ErrRecordNotFound
  else if negb (GoInt.is_int64 id) then inl (ErrStore (pq_Error "22003"))
  else match books s !! id with
       | Some row => inr (scan_book (id, row))
       | None => inl ErrRecordNotFound
       end.
Proof.
  unfold Get, sql_select_by_id, round_trip_query. destruct (id <? 1); [reflexivity|].
  destruct (negb _); [reflexivity|]. destruct (books s !! id); reflexivity.
Qed.

Lemma Delete_cases s id :
  Delete None s id =
  if id <? 1 then (s, Some ErrRecordNotFound)
  else if negb (GoInt.is_int64 id) then (s, Some (ErrStore (pq_Error "22003")))
  else match books s !! id with
       | Some _ => (with_books s (delete id (books s)), None)
       | None => (s, Some ErrRecordNotFound)
       end.
Proof.
  unfold Delete, sql_delete, round_trip, delete_statement.
  destruct (id <? 1); [reflexivity|].
  destruct (negb _); [reflexivity|]. destruct (books s !! id); reflexivity.
Qed.

Lemma Insert_cases now s book :
  Insert None now s book =
  match bind [bind_text (Title book); bind_integer (Year book);
              bind_integer (Pages book); bind_text_array (Genres book)] with
  | Some sqlstate => (s, book, Some (ErrStore (pq_Error sqlstate)))
  | None =>
      if GoInt.MaxInt64 <? books_id_seq s
      then (s, book, Some (ErrStore (pq_Error "2200H")))
      else
        let s1 := {| books := books s; books_id_seq := books_id_seq s + 1 |} in
        match Genres book, books s !! books_id_seq s with
        | None, _ => (s1, book, Some (ErrStore (pq_Error "23502")))
        | Some _, Some _ => (s1, book, Some (ErrStore (pq_Error "23505")))
        | Some g, None =>
            (with_books s1
               (<[books_id_seq s :=
                    {| row_created := now; row_title := Title book; row_year := Year book;
                       row_pages := Pages book; row_genres := g; row_version := 1 |}]>
                  (books s)),
             {| ID := books_id_seq s; Created := now; Title := Title book;
                Year := Year book; Pages := Pages book; Genres := Some g; Version := 1 |},
             None)
        end
  end.
Proof.
  unfold Insert, sql_insert, round_trip, insert_statement, scan_insert.
  destruct (bind _); [reflexivity|].
  destruct (GoInt.MaxInt64 <? books_id_seq s); [reflexivity|].
  destruct (Genres book) eqn:Eg; [|reflexivity].
  destruct (books s !! books_id_seq s); reflexivity.
Qed.

(** C1, as amended.  An Update whose version differs from the stored
    version of the record with that id fails and leaves the store and the
    book untouched, whatever happens to the round trip.  The failure is
    EditConflict when the round trip goes through and the parameters are
    accepted at the types of their columns, and otherwise an error of the
    store passed on (StoreFailure).  An Update succeeds only if the stored
    version equals the version in hand; compare and write are the one
    statement [update_statement].  An Update that fails has changed
    neither the store nor the book, unless the statement ran and its reply
    was lost. *)
Theorem Update_conditional_write fault s book s' book' err :
  Update fault s book = (s', book', err) ->
  (forall r, books s !! ID book = Some r -> row_version r <> Version book ->
     s' = s /\ book' = book
     /\ (fault = None /\ binds book = true -> err = Some ErrEditConflict)
     /\ (~ (fault = None /\ binds book = true) -> exists e, err = Some (ErrStore e)))
  /\ (err = None ->
      fault = None
      /\ exists r, books s !! ID book = Some r /\ row_version r = Version book)
  /\ (err <> None -> lost fault = false -> s' = s /\ book' = book).
Proof.
  rewrite Update_fault. intros E. split; [|split].
  - intros r Hr Hv. rewrite (Update_stale s book r Hr Hv) in E. unfold binds.
    destruct (bind (update_params book)) as [sqlstate|];
      destruct fault as [[msg|msg [|]]|]; cbn [fst snd] in E; injection E as <- <- <-;
      (split; [reflexivity|]); (split; [reflexivity|]);
      (split; [intros [Hf Hb]; try discriminate; reflexivity|]);
      intros Hn; eauto; now destruct Hn.
  - intros ->. destruct fault as [[msg|msg sc]|]; try discriminate.
    split; [reflexivity|]. rewrite Update_cases in E.
    destruct (bind _); [discriminate|].
    destruct (books s !! ID book) as [r|]; [|discriminate].
    destruct (row_version r =? Version book) eqn:Ev; [|discriminate].
    exists r. split; [reflexivity|lia].
  - intros Herr Hlost. destruct fault as [[msg|msg sc]|]; [|discriminate|].
    + now injection E as <- <- <-.
    + rewrite Update_cases in E.
      destruct (bind _); [now injection E as <- <- <-|].
      destruct (books s !! ID book) as [r|]; [|now injection E as <- <- <-].
      destruct (row_version r =? Version book); [|now injection E as <- <- <-].
      destruct (Genres book); [|now injection E as <- <- <-].
      destruct (negb _); [now injection E as <- <- <-|].
      injection E as <- <- <-. congruence.
Qed.

(** C2. A successful Update replaces the stored version by the stored
    version plus one and writes that number into the Version field of the
    book; nothing else of the book changes.  A successful Insert stores
    the record at version 1 and reports 1. *)
Theorem Update_increments_version :
  (forall fault s book s' book',
     Update fault s book = (s', book', None) ->
     exists r r',
       books s !! ID book = Some r /\ books s' !! ID book = Some r'
       /\ row_version r' = row_version r + 1
       /\ book' = set_Version book (row_version r + 1)
       /\ Version book' = Version book + 1)
  /\ (forall fault now s book s' book',
        Insert fault now s book = (s', book', None) ->
        exists r',
          books s !! ID book' = None /\ books s' !! ID book' = Some r'
          /\ row_version r' = 1 /\ Version book' = 1).
Proof.
  split.
  - intros fault s book s' book' E.
    pose proof (Update_ok _ _ _ _ _ E) as ->. revert E. rewrite Update_cases.
    destruct (bind _); [discriminate|].
    destruct (books s !! ID book) as [r|] eqn:Er; [|discriminate].
    destruct (row_version r =? Version book) eqn:Ev; [|discriminate].
    destruct (Genres book) as [g|]; [|discriminate].
    destruct (negb _); [discriminate|].
    intros [= <- <-]. exists r, (updated_row r book g). simpl.
    rewrite lookup_insert_eq. repeat split; auto. lia.
  - intros fault now s book s' book' E.
    pose proof (Insert_ok _ _ _ _ _ _ E) as ->. revert E.
    unfold Insert, sql_insert, round_trip, insert_statement.
    destruct (bind _); [discriminate|].
    destruct (GoInt.MaxInt64 <? books_id_seq s); [discriminate|].
    destruct (Genres book) as [g|]; [|discriminate].
    destruct (books s !! books_id_seq s) eqn:Ef; [discriminate|].
    simpl. intros [= <- <-]. simpl. rewrite lookup_insert_eq. eauto.
Qed.

End StoreClaims.

(** C1 as the specification states it fails.  The second record of the
    sample store is at version 3; an Update of it with version 2 and a page
    count that passes validation but does not fit the column is refused by
    the server, and the error is that of the store, not EditConflict. *)
Lemma Update_stale_not_conflict :
  books sample_store !! ID sample_oversized
  = Some (sample_row "Dune" 1965 412 ["sf"; "novel"] 3)
  /\ Version sample_oversized = 2
  /\ validator.Valid (ValidateBook 2025 validator.New sample_oversized) = true
  /\ Update None sample_store sample_oversized
     = (sample_store, sample_oversized, Some (ErrStore (pq_Error "22003"))).
Proof. repeat split; reflexivity. Qed.

(** A reply that is lost after the statement ran: the caller has an
    error, and the row is written (or gone) all the same. *)
Example reply_lost_after_write :
  (exists s',
     Update (Some (reply_lost "context deadline exceeded" false)) sample_store
            (sample_book 3)
     = (s', sample_book 3, Some (ErrStore (driver_failure "context deadline exceeded")))
     /\ row_version <$> books s' !! 2 = Some 4)
  /\ (exists s',
        Insert (Some (reply_lost "driver: bad connection" true)) 1700000100
               sample_store (sample_book 0)
        = (s', scan_insert (sample_book 0) (5, 1700000100, 1),
           Some (ErrStore (driver_failure "driver: bad connection")))
        /\ row_title <$> books s' !! 5 = Some "Dune Messiah").
Proof. split; eexists; split; reflexivity. Qed.

Lemma Update_conditional_write_witness :
  Update None sample_store (sample_book 2) = (sample_store, sample_book 2, Some ErrEditConflict)
  /\ books sample_store !! ID (sample_book 2)
     = Some (sample_row "Dune" 1965 412 ["sf"; "novel"] 3)
  /\ binds (sample_book 2) = true
  /\ Some ErrEditConflict = Some ErrEditConflict.
Proof.
  split; [reflexivity|]. split; [reflexivity|]. split; [reflexivity|].
  exact (proj1 (proj2 (proj2
           (proj1 (Update_conditional_write None sample_store (sample_book 2)
                     sample_store (sample_book 2) (Some ErrEditConflict) eq_refl)
                  (sample_row "Dune" 1965 412 ["sf"; "novel"] 3) eq_refl
                  ltac:(discriminate))))
           (conj eq_refl eq_refl)).
Defined.

Lemma Update_increments_version_witness :
  (Update None sample_store (sample_book 3)
   = (with_books sample_store
        (<[2 := updated_row (sample_row "Dune" 1965 412 ["sf"; "novel"] 3)
                            (sample_book 3) ["sf"]]> (books sample_store)),
      sample_book 4, None)
   /\ Version (sample_book 4) = Version (sample_book 3) + 1)
  /\ exists s' book' r',
       Insert None 1700000100 sample_store (sample_book 0) = (s', book', None)
       /\ books s' !! ID book' = Some r' /\ row_version r' = 1 /\ Version book' = 1.
Proof.
  split.
  - split; [reflexivity|].
    destruct (proj1 (Update_increments_version (H := postgres_C)) None sample_store (sample_book 3)
                (with_books sample_store
                   (<[2 := updated_row (sample_row "Dune" 1965 412 ["sf"; "novel"] 3)
                                       (sample_book 3) ["sf"]]> (books sample_store)))
                (sample_book 4) eq_refl)
      as (r & r' & _ & _ & _ & _ & Hv).
    exact Hv.
  - pose (res := Insert None 1700000100 sample_store (sample_book 0)).
    destruct (proj2 (Update_increments_version (H := postgres_C)) None 1700000100 sample_store (sample_book 0)
                res.1.1 res.1.2 eq_refl) as (r' & _ & Hr & Hv & Hb).
    exists res.1.1, res.1.2, r'. split; [reflexivity|]. auto.
Defined.

(** ** The order of the listing *)

Section Comparisons.
Context {A : Type}.

Lemma lawful_eq_r (cmp : A -> A -> comparison) x y z :
  lawful cmp -> cmp y z = Eq -> cmp x y = cmp x z.
Proof.
  intros L E.
  rewrite (lawful_antisym cmp L y x), (lawful_antisym cmp L z x).
  f_equal. apply (lawful_eq cmp L). exact E.
Qed.

Lemma lawful_Z (f : A -> Z) : lawful (fun x y => f x ?= f y).
Proof.
  split.
  - intros x y. apply Z.compare_antisym.
  - intros x y z. rewrite !Z.compare_lt_iff. lia.
  - intros x y z E. apply Z.compare_eq in E. now rewrite E.
Qed.

Lemma lawful_opp (cmp : A -> A -> comparison) :
  lawful cmp -> lawful (fun x y => CompOpp (cmp x y)).
Proof.
  intros L. split.
  - intros x y. now rewrite (lawful_antisym cmp L x y).
  - intros x y z Hxy Hyz.
    rewrite (lawful_antisym cmp L z x), CompOpp_involutive.
    apply (lawful_trans cmp L z y x).
    + rewrite (lawful_antisym cmp L z y) in Hyz. now rewrite CompOpp_involutive in Hyz.
    + rewrite (lawful_antisym cmp L y x) in Hxy. now rewrite CompOpp_involutive in Hxy.
  - intros x y z E. f_equal. apply (lawful_eq cmp L).
    now destruct (cmp x y).
Qed.

Lemma lawful_lex (cmp1 cmp2 : A -> A -> comparison) :
  lawful cmp1 -> lawful cmp2 -> lawful (lex cmp1 cmp2).
Proof.
  intros L1 L2. unfold lex. split.
  - intros x y. rewrite (lawful_antisym cmp1 L1 x y), (lawful_antisym cmp2 L2 x y).
    now destruct (cmp1 x y).
  - intros x y z.
    destruct (cmp1 x y) eqn:Exy; try discriminate;
      destruct (cmp1 y z) eqn:Eyz; try discriminate; intros Hxy Hyz.
    + rewrite (lawful_eq cmp1 L1 x y z Exy), Eyz.
      apply (lawful_trans cmp2 L2 x y z); assumption.
    + now rewrite (lawful_eq cmp1 L1 x y z Exy), Eyz.
    + now rewrite <- (lawful_eq_r cmp1 x y z L1 Eyz), Exy.
    + now rewrite (lawful_trans cmp1 L1 x y z Exy Eyz).
  - intros x y z.
    destruct (cmp1 x y) eqn:Exy; try discriminate. intros E.
    rewrite (lawful_eq cmp1 L1 x y z Exy).
    destruct (cmp1 y z); auto. apply (lawful_eq cmp2 L2). exact E.
Qed.

Lemma lawful_total (cmp : A -> A -> comparison) :
  lawful cmp -> Total (fun x y => cmp x y <> Gt).
Proof.
  intros L x y. rewrite (lawful_antisym cmp L x y).
  destruct (cmp x y); simpl; [left|left|right]; discriminate.
Qed.

Lemma lawful_transitive (cmp : A -> A -> comparison) :
  lawful cmp -> Transitive (fun x y => cmp x y <> Gt).
Proof.
  intros L x y z Hxy Hyz.
  destruct (cmp x y) eqn:Exy; [| |congruence].
  - now rewrite (lawful_eq cmp L x y z Exy).
  - destruct (cmp y z) eqn:Eyz; [| |congruence].
    + rewrite <- (lawful_eq_r cmp x y z L Eyz), Exy. discriminate.
    + rewrite (lawful_trans cmp L x y z Exy Eyz). discriminate.
Qed.

End Comparisons.

Section Ordering.
Context `{Postgres}.

Lemma collate_refl a : collate a a = Eq.
Proof.
  pose proof (collate_antisym a a) as E. now destruct (collate a a).
Qed.

Lemma lawful_collate {A} (f : A -> string) : lawful (fun x y => collate (f x) (f y)).
Proof.
  split.
  - intros x y. apply collate_antisym.
  - intros x y z. apply collate_trans.
  - intros x y z E. apply collate_eq in E. now rewrite E.
Qed.

Lemma array_cmp_eq a b : array_cmp a b = Eq -> a = b.
Proof.
  revert b. induction a as [|x a IH]; intros [|y b]; simpl; try discriminate; auto.
  destruct (collate x y) eqn:E; try discriminate.
  intros Hab. apply collate_eq in E. apply IH in Hab. congruence.
Qed.

Lemma array_cmp_antisym a b : array_cmp b a = CompOpp (array_cmp a b).
Proof.
  revert b. induction a as [|x a IH]; intros [|y b]; simpl; auto.
  rewrite (collate_antisym x y). destruct (collate x y); simpl; auto.
Qed.

Lemma array_cmp_trans a b c :
  array_cmp a b = Lt -> array_cmp b c = Lt -> array_cmp a c = Lt.
Proof.
  revert b c. induction a as [|x a IH]; intros [|y b] [|z c]; simpl; try congruence.
  destruct (collate x y) eqn:Exy; try discriminate;
    destruct (collate y z) eqn:Eyz; try discriminate; intros Hab Hbc.
  - apply collate_eq in Exy. subst y. rewrite Eyz. eauto.
  - apply collate_eq in Exy. subst y. now rewrite Eyz.
  - apply collate_eq in Eyz. subst z. now rewrite Exy.
  - now rewrite (collate_trans x y z).
Qed.

Lemma lawful_array {A} (f : A -> list string) :
  lawful (fun x y => array_cmp (f x) (f y)).
Proof.
  split.
  - intros x y. apply array_cmp_antisym.
  - intros x y z. apply array_cmp_trans.
  - intros x y z E. apply array_cmp_eq in E. now rewrite E.
Qed.

Lemma lawful_key_cmp c : lawful (key_cmp c).
Proof.
  destruct c; unfold key_cmp;
    first [ apply (lawful_Z (fun x : Z * Row => x.1))
          | apply (lawful_Z (fun x : Z * Row => row_created x.2))
          | apply (lawful_Z (fun x : Z * Row => row_year x.2))
          | apply (lawful_Z (fun x : Z * Row => row_pages x.2))
          | apply (lawful_Z (fun x : Z * Row => row_version x.2))
          | apply (lawful_collate (fun x : Z * Row => row_title x.2))
          | apply (lawful_array (fun x : Z * Row => row_genres x.2)) ].
Qed.

Lemma order_cmp_lex c desc :
  order_cmp c desc =
  lex (if desc then fun x y => CompOpp (key_cmp c x y) else key_cmp c)
      (fun x y => x.1 ?= y.1).
Proof. unfold order_cmp, lex. now destruct desc. Qed.

Lemma lawful_order_cmp c desc : lawful (order_cmp c desc).
Proof.
  rewrite order_cmp_lex. apply lawful_lex.
  - destruct desc; [apply lawful_opp|]; apply lawful_key_cmp.
  - apply (lawful_Z (fun x : Z * Row => x.1)).
Qed.

#[global] Instance order_le_total c desc : Total (order_le c desc).
Proof. apply lawful_total, lawful_order_cmp. Qed.

#[global] Instance order_le_transitive c desc : Transitive (order_le c desc).
Proof. apply lawful_transitive, lawful_order_cmp. Qed.

(** Ties are fully broken: rows that compare equal have the same id. *)
Lemma order_cmp_Eq c desc x y : order_cmp c desc x y = Eq -> x.1 = y.1.
Proof.
  unfold order_cmp.
  destruct (if desc then CompOpp (key_cmp c x y) else key_cmp c x y);
    try discriminate. apply Z.compare_eq.
Qed.

End Ordering.

Section Listing.
Context `{Postgres}.

Lemma filter_sublist {A} (f : A -> bool) (l : list A) : List.filter f l `sublist_of` l.
Proof.
  induction l as [|x l IH]; simpl; [constructor|].
  destruct (f x); now constructor.
Qed.

Lemma StronglySorted_sublist {A} (R : relation A) (l1 l2 : list A) :
  l1 `sublist_of` l2 -> StronglySorted R l2 -> StronglySorted R l1.
Proof.
  induction 1 as [|x l1 l2 Hsub IH|x l1 l2 Hsub IH]; intros Hs.
  - constructor.
  - apply StronglySorted_inv in Hs as [Hs Hx]. constructor; [auto|].
    rewrite Forall_forall in *. intros y Hy. apply Hx.
    eapply elem_of_sublist; eauto.
  - apply StronglySorted_inv in Hs as [Hs _]. auto.
Qed.

(** Strengthening from the order to the strict order, for rows with
    distinct ids. *)
Lemma StronglySorted_strict c desc (l : list (Z * Row)) :
  NoDup l.*1 -> StronglySorted (order_le c desc) l ->
  StronglySorted (fun x y => order_cmp c desc x y = Lt) l.
Proof.
  induction l as [|x l IH]; intros Hnd Hs; [constructor|].
  rewrite fmap_cons in Hnd. apply NoDup_cons in Hnd as [Hx Hnd].
  apply StronglySorted_inv in Hs as [Hs Hall]. constructor; [auto|].
  rewrite Forall_forall in *. intros y Hy. specialize (Hall y Hy).
  unfold order_le in Hall.
  destruct (order_cmp c desc x y) eqn:E; [|reflexivity|congruence].
  exfalso. apply Hx. apply order_cmp_Eq in E. rewrite E.
  now apply list_elem_of_fmap_2.
Qed.

Lemma matching_rows_NoDup s title genres : NoDup (matching_rows s title genres).*1.
Proof.
  unfold matching_rows.
  apply (sublist_NoDup _ (map_to_list (books s)).*1).
  - apply NoDup_fst_map_to_list.
  - apply fmap_sublist, filter_sublist.
Qed.

Lemma unscan_scan_book x : unscan (scan_book x) = x.
Proof. now destruct x as [id []]. Qed.

(** The whole listing is in strict order and holds exactly the matching
    rows. *)
Lemma listing_sorted s title genres c desc :
  StronglySorted (book_before c desc) (listing s title genres c desc)
  /\ listing s title genres c desc ≡ₚ scan_book <$> matching_rows s title genres.
Proof.
  unfold listing. split.
  - apply StronglySorted_fmap with (R1 := fun x y => order_cmp c desc x y = Lt).
    + intros x y Hxy. unfold book_before. now rewrite !unscan_scan_book.
    + apply StronglySorted_strict.
      * rewrite merge_sort_Permutation. apply matching_rows_NoDup.
      * apply StronglySorted_merge_sort; apply _.
  - now rewrite merge_sort_Permutation.
Qed.

(** The order leaves no freedom: a list of the same books in strict
    order is the listing itself, whatever order the rows were found
    in. *)
Lemma listing_unique s title genres c desc (l : list Book) :
  l ≡ₚ listing s title genres c desc ->
  StronglySorted (book_before c desc) l ->
  l = listing s title genres c desc.
Proof.
  intros Hp Hs.
  assert (Hanti : AntiSymm (=) (book_before c desc)).
  { intros x y Hxy Hyx. unfold book_before in *.
    rewrite (lawful_antisym _ (lawful_order_cmp c desc)), Hxy in Hyx. discriminate. }
  apply (StronglySorted_unique (book_before c desc)); auto.
  apply listing_sorted.
Qed.

Lemma scan_rows_page (n : Z) (page : list (Z * Row)) :
  scan_rows ((fun x => (n, x)) <$> page) =
  (match page with [] => 0 | _ => n end, scan_book <$> page).
Proof.
  unfold scan_rows.
  assert (Hgen : forall t acc,
    fold_left (fun (st : Z * list Book) r => (r.1, (st.2 ++ [scan_book r.2])%list))
              ((fun x => (n, x)) <$> page) (t, acc)
    = (match page with [] => t | _ => n end, (acc ++ (scan_book <$> page))%list)).
  { induction page as [|x page IH]; intros t acc; simpl.
    - now rewrite app_nil_r.
    - rewrite IH. simpl. rewrite <- app_assoc. simpl. now destruct page. }
  apply Hgen.
Qed.

Lemma sortDirection_desc f :
  String.eqb (sortDirection f) "DESC" = HasPrefix (Sort f) "-".
Proof. unfold sortDirection. now destruct (HasPrefix (Sort f) "-"). Qed.

(** [GetAll] by cases: when it returns, the books are a page of
    the listing, and the total is the number of matching rows if the page
    has a row and 0 if it has none. *)
Lemma GetAll_cases fault s title genres f found meta :
  GetAll fault s title genres f = inr (found, meta) ->
  exists c,
    fault = None /\ column_of_name (sortColumn f) = Some c
    /\ 0 <= limit f /\ 0 <= offset f
    /\ found = take (Z.to_nat (limit f))
                 (drop (Z.to_nat (offset f))
                    (listing s title genres c (HasPrefix (Sort f) "-")))
    /\ meta = calculateMetadata
                (match found with
                 | [] => 0
                 | _ => Z.of_nat (List.length (matching_rows s title genres))
                 end) (Page f) (PageSize f).
Proof.
  unfold GetAll, sql_select_page, round_trip_query.
  destruct fault as [[msg|msg]|]; [discriminate..|].
  destruct (column_of_name (sortColumn f)) as [c|]; [|discriminate].
  destruct (negb _) eqn:Edir; [discriminate|].
  destruct (bind _); [discriminate|].
  destruct (limit f <? 0) eqn:El; [discriminate|].
  destruct (offset f <? 0) eqn:Eo; [discriminate|].
  rewrite scan_rows_page, sortDirection_desc. intros [= <- <-].
  exists c. unfold listing. rewrite <- fmap_drop, <- fmap_take.
  repeat split; try lia.
  destruct (take _ _); reflexivity.
Qed.

(** When the page has a row, the total is the number of matching rows. *)
Lemma GetAll_total_of_nonempty_page fault s title genres f found meta :
  GetAll fault s title genres f = inr (found, meta) ->
  found <> [] ->
  TotalRecords meta = Z.of_nat (List.length (matching_rows s title genres)).
Proof.
  intros E Hne. apply GetAll_cases in E as (c & _ & _ & _ & _ & _ & ->).
  destruct found; [congruence|].
  unfold calculateMetadata. destruct (_ =? 0) eqn:E0; simpl; lia.
Qed.

Lemma sortColumn_safelist f :
  In (Sort f) listBooks_safelist ->
  exists c, column_of_name (sortColumn f) = Some c.
Proof.
  unfold sortColumn. simpl.
  intros [<-|[<-|[<-|[<-|[<-|[<-|[<-|[<-|[]]]]]]]]]; vm_compute; eauto.
Qed.

(** For validated filters with the safelist of the handler, a page number
    whose offset fits in an [int], and a title and genres the server takes
    as text, the listing returns. *)
Lemma GetAll_returns s title genres f :
  valid_filters f = true -> SortSafelist f = listBooks_safelist ->
  (Page f - 1) * PageSize f <= GoInt.MaxInt64 ->
  bind [bind_text title; bind_text_array genres] = None ->
  exists found meta, GetAll None s title genres f = inr (found, meta).
Proof.
  unfold valid_filters. intros Hv Hs Ho Hb.
  apply andb_prop in Hv as [Hv Hsort]. rewrite Hs in Hsort.
  apply existsb_exists in Hsort as (x & Hx & Ex).
  apply String.eqb_eq in Ex. subst x.
  destruct (sortColumn_safelist f Hx) as [c Hc].
  unfold GetAll, sql_select_page, round_trip_query. rewrite Hc.
  replace (negb _) with false
    by (unfold sortDirection; now destruct (HasPrefix (Sort f) "-")).
  rewrite Hb.
  assert (Hl : (limit f <? 0) = false) by (unfold limit; lia).
  assert (Ho' : (offset f <? 0) = false).
  { assert (0 <= (Page f - 1) * PageSize f) by (apply Z.mul_nonneg_nonneg; lia).
    unfold offset, GoInt.wrap64, GoInt.MaxInt64 in *.
    rewrite Z.mod_small by lia. lia. }
  rewrite Hl, Ho'. destruct (scan_rows _). eauto.
Qed.

(** C6. The rows that List returns are in the order of the sort column
    in the sort direction, ties broken by ascending id, and strictly so:
    no two rows tie.  The page is a slice of the one ordered listing of
    all matching rows, the same for every page, and that listing is the
    only arrangement of the matching rows in this order.  For sort
    "-year" the years descend and equal years go by ascending id. *)
Theorem GetAll_ordered fault s title genres f found meta :
  GetAll fault s title genres f = inr (found, meta) ->
  exists c,
    let desc := HasPrefix (Sort f) "-" in
    column_of_name (sortColumn f) = Some c
    /\ StronglySorted (book_before c desc) found
    /\ found = take (Z.to_nat (limit f))
                 (drop (Z.to_nat (offset f)) (listing s title genres c desc))
    /\ StronglySorted (book_before c desc) (listing s title genres c desc)
    /\ listing s title genres c desc ≡ₚ scan_book <$> matching_rows s title genres
    /\ (forall l, l ≡ₚ listing s title genres c desc ->
                  StronglySorted (book_before c desc) l ->
                  l = listing s title genres c desc)
    /\ (Sort f = "-year" ->
        StronglySorted
          (fun b1 b2 => Year b2 < Year b1 \/ (Year b1 = Year b2 /\ ID b1 < ID b2))
          found).
Proof.
  intros E. apply GetAll_cases in E as (c & _ & Hc & _ & _ & Hfound & _).
  exists c. cbv zeta.
  destruct (listing_sorted s title genres c (HasPrefix (Sort f) "-")) as [Hs Hp].
  assert (Hf : StronglySorted (book_before c (HasPrefix (Sort f) "-")) found).
  { rewrite Hfound. eapply StronglySorted_sublist; [|exact Hs].
    etrans; [apply sublist_take|apply sublist_drop]. }
  repeat split; auto; [apply listing_unique|].
  intros Esort. unfold sortColumn in Hc. rewrite Esort in Hc, Hf.
  vm_compute in Hc. injection Hc as <-.
  change (HasPrefix "-year" "-") with true in Hf.
  revert Hf. apply Sorted.StronglySorted_ind; [constructor|].
  intros b l _ IH Hall. constructor; [exact IH|].
  rewrite Forall_forall in *. intros b2 Hb2. specialize (Hall b2 Hb2).
  unfold book_before, order_cmp, key_cmp, unscan in Hall. simpl in Hall.
  destruct (Year b ?= Year b2) eqn:Ey; simpl in Hall; try discriminate.
  - apply Z.compare_eq in Ey. change (ID b < ID b2) in Hall. lia.
  - apply Z.compare_gt_iff in Ey. lia.
Qed.

End Listing.

Lemma GetAll_ordered_witness :
  GetAll None sample_store "" (Some []) (sample_filters 1 "-year")
  = inr (sample_by_year_desc, sample_metadata)
  /\ StronglySorted
       (fun b1 b2 => Year b2 < Year b1 \/ (Year b1 = Year b2 /\ ID b1 < ID b2))
       sample_by_year_desc.
Proof.
  split; [reflexivity|].
  destruct (GetAll_ordered (H := postgres_C) None sample_store "" (Some []) (sample_filters 1 "-year")
              sample_by_year_desc sample_metadata eq_refl)
    as (c & _ & _ & _ & _ & _ & _ & Hyear).
  exact (Hyear eq_refl).
Defined.

(** C3 at a failing input.  The store holds four books and all of them
    match the empty title query and the empty genre filter.  For page 2 of
    page size 20, validated filters, the page is empty, and List reports
    the zero-valued metadata: totalRecords is 0, not 4. *)
Theorem GetAll_total_past_last_page :
  valid_filters (sample_filters 2 "id") = true
  /\ List.length (matching_rows sample_store "" (Some [])) = 4%nat
  /\ GetAll None sample_store "" (Some []) (sample_filters 2 "id")
     = inr ([], emptyMetadata)
  /\ TotalRecords emptyMetadata = 0.
Proof. repeat split; reflexivity. Qed.

(** ** Claims about the update handler *)

Section Handler.
Context `{Postgres}.

Lemma readID_range r id : readID r = Some id -> 1 <= id /\ GoInt.is_int64 id = true.
Proof.
  unfold readID. destruct (strconv.ParseInt (param_id r)) as [e|i] eqn:E; [discriminate|].
  destruct (i <? 1) eqn:Ei; [discriminate|]. intros [= <-].
  split; [lia|]. eapply ParseInt_is_int64, E.
Qed.

Lemma Get_found s id row :
  1 <= id -> GoInt.is_int64 id = true -> books s !! id = Some row ->
  Get None s id = inr (scan_book (id, row)).
Proof.
  intros H1 H2 Hr. unfold Get, sql_select_by_id, round_trip_query.
  replace (id <? 1) with false by lia. now rewrite H2, Hr.
Qed.

(** C9. When the request carries a non-empty X-Expected-Version header
    that differs from the decimal rendering of the version of the record
    just fetched, the handler answers EditConflict; the fetch is the only
    thing it has done (the body is not read, nothing is merged, validated
    or written), whatever the body is, and the store is as it was. *)
Theorem updateBookHandler_expected_version
    current_year update_fault others s r id row :
  readID r = Some id ->
  books s !! id = Some row ->
  X_Expected_Version r <> "" ->
  X_Expected_Version r <> strconv.FormatInt (row_version row) ->
  updateBookHandler current_year None update_fault others s r
  = (s, editConflictResponse, [EvGet id]).
Proof.
  intros Hid Hrow Hne Hdiff. unfold updateBookHandler. rewrite Hid.
  destruct (readID_range r id Hid) as [H1 H2].
  rewrite (Get_found s id row H1 H2 Hrow). simpl.
  apply String.eqb_neq in Hne. rewrite Hne.
  assert (Hd : String.eqb (strconv.FormatInt (row_version row)) (X_Expected_Version r)
               = false) by (apply String.eqb_neq; congruence).
  now rewrite Hd.
Qed.

(** C7. In an update request that gets as far as the body, each of
    title, year, pages and genres of the entity that is validated and
    then written is the value the caller supplied, or, if the caller
    supplied none, the value of the record just fetched; id, created and
    version are those of the fetched record.  If the handler answers with
    a book, the stored record has exactly these four values and the next
    version, and no other record was written. *)
Theorem updateBookHandler_merges
    current_year update_fault others s r id row inp s' resp trace :
  readID r = Some id ->
  books s !! id = Some row ->
  X_Expected_Version r = "" \/
    X_Expected_Version r = strconv.FormatInt (row_version row) ->
  body r = inr inp ->
  updateBookHandler current_year None update_fault others s r = (s', resp, trace) ->
  let merged := merge (scan_book (id, row)) inp in
  (Title merged = default (row_title row) (in_Title inp)
   /\ Year merged = default (row_year row) (in_Year inp)
   /\ Pages merged = default (row_pages row) (in_Pages inp)
   /\ Genres merged = Some (default (row_genres row) (in_Genres inp))
   /\ ID merged = id /\ Created merged = row_created row
   /\ Version merged = row_version row)
  /\ (trace = [EvGet id; EvReadJSON; EvValidate merged]
      \/ trace = [EvGet id; EvReadJSON; EvValidate merged; EvUpdate merged])
  /\ (forall b, resp = bookResponse b ->
        b = set_Version merged (row_version row + 1)
        /\ exists r',
             books s' !! id = Some r'
             /\ row_title r' = default (row_title row) (in_Title inp)
             /\ row_year r' = default (row_year row) (in_Year inp)
             /\ row_pages r' = default (row_pages row) (in_Pages inp)
             /\ row_genres r' = default (row_genres row) (in_Genres inp)
             /\ row_version r' = row_version row + 1
             /\ forall id', id' <> id -> books s' !! id' = books (others s) !! id').
Proof.
  intros Hid Hrow Hx Hbody. unfold updateBookHandler. rewrite Hid.
  destruct (readID_range r id Hid) as [H1 H2].
  rewrite (Get_found s id row H1 H2 Hrow), Hbody.
  assert (Hpre : negb (String.eqb (X_Expected_Version r) "")
                 && negb (String.eqb (strconv.FormatInt (Version (scan_book (id, row))))
                                     (X_Expected_Version r)) = false).
  { destruct Hx as [-> | ->]; [reflexivity|].
    simpl. rewrite String.eqb_refl. apply andb_false_r. }
  rewrite Hpre. cbv zeta. intros E. split; [|split].
  - destruct inp as [[t|] [y|] [p|] [g|]]; simpl; repeat split; reflexivity.
  - destruct (negb (validator.Valid _)); [injection E as <- <- <-; now left|].
    destruct (Update update_fault (others s) _) as [[s2 b2] [[]|]];
      injection E as <- <- <-; now right.
  - intros b ->.
    destruct (negb (validator.Valid _)); [discriminate|].
    destruct (Update update_fault (others s) _) as [[s2 b2] [e|]] eqn:EU;
      [destruct e; discriminate|].
    pose proof (Update_ok _ _ _ _ _ EU) as ->. rewrite Update_cases in EU.
    destruct (bind _); [discriminate|].
    destruct (books (others s) !! ID _) as [r0|] eqn:Er0; [|discriminate].
    destruct (row_version r0 =? Version _) eqn:Ev; [|discriminate].
    destruct (Genres (merge _ _)) as [g|] eqn:Eg; [|discriminate].
    destruct (negb (GoInt.is_int32 _)); [discriminate|].
    injection EU as <- <-. injection E as <- <- <-.
    assert (Hv : row_version r0 = row_version row).
    { apply Z.eqb_eq in Ev. destruct inp as [[t|] [y|] [p|] [gg|]]; exact Ev. }
    assert (Hidm : ID (merge (scan_book (id, row)) inp) = id)
      by (destruct inp as [[t|] [y|] [p|] [gg|]]; reflexivity).
    rewrite ?Hidm, Hv. split; [reflexivity|].
    exists (updated_row r0 (merge (scan_book (id, row)) inp) g).
    simpl books. rewrite lookup_insert_eq.
    split; [reflexivity|].
    destruct inp as [[t|] [y|] [p|] [gg|]]; simpl in Eg; injection Eg as <-;
      simpl; rewrite ?Hv; repeat split; auto;
      intros id' Hne; now rewrite lookup_insert_ne.
Qed.

End Handler.

Lemma updateBookHandler_expected_version_witness :
  updateBookHandler 2025 None None (fun s => s) sample_store (sample_request "2")
  = (sample_store, editConflictResponse, [EvGet 2]).
Proof.
  apply (updateBookHandler_expected_version 2025 None (fun s => s) sample_store
           (sample_request "2")
           2 (sample_row "Dune" 1965 412 ["sf"; "novel"] 3));
    [reflexivity | reflexivity | discriminate | discriminate].
Defined.

Lemma updateBookHandler_merges_witness :
  exists s' b r',
    updateBookHandler 2025 None None (fun s => s) sample_store (sample_request "3")
    = (s', bookResponse b,
       [EvGet 2; EvReadJSON; EvValidate (set_Version b 3); EvUpdate (set_Version b 3)])
    /\ books s' !! 2 = Some r'
    /\ row_title r' = "Dune (revised)" /\ row_year r' = 1965 /\ row_pages r' = 412
    /\ row_genres r' = ["sf"; "novel"] /\ row_version r' = 3 + 1.
Proof.
  pose (res := updateBookHandler 2025 None None (fun s => s) sample_store (sample_request "3")).
  pose (inp := {| in_Title := Some "Dune (revised)"; in_Year := None;
                  in_Pages := None; in_Genres := None |}).
  pose (b := set_Version (merge (scan_book (2, sample_row "Dune" 1965 412 ["sf"; "novel"] 3))
                                inp) 4).
  destruct (updateBookHandler_merges (H := postgres_C) 2025 None (fun s => s) sample_store
              (sample_request "3") 2 (sample_row "Dune" 1965 412 ["sf"; "novel"] 3)
              inp res.1.1 (bookResponse b) res.2
              eq_refl eq_refl (or_intror eq_refl) eq_refl eq_refl)
    as (_ & _ & Hb).
  destruct (Hb b eq_refl) as (_ & r' & Hr & Ht & Hy & Hp & Hg & Hv & _).
  exists res.1.1, b, r'. split; [reflexivity|].
  split; [exact Hr|]. split; [exact Ht|]. split; [exact Hy|]. split; [exact Hp|].
  split; [exact Hg|exact Hv].
Defined.

(** ** More about the record store *)

(** X1. [Get] returns a book exactly when the round trip succeeds, the id is
    at least 1 and a row with that id is stored, and the book is then that
    row; it reports NotFound exactly for an id below 1 (without asking the
    store) or a missing row. *)
Theorem Get_characterised (fault : option Fault) (s : Store) (id : Z) :
  GoInt.is_int64 id = true ->
  (forall b, Get fault s id = inr b <->
             fault = None /\ 1 <= id
             /\ exists row, books s !! id = Some row /\ b = scan_book (id, row))
  /\ (Get fault s id = inl ErrRecordNotFound <->
      id < 1 \/ (fault = None /\ books s !! id = None)).
Proof.
  intros Hid. rewrite Get_fault, Get_cases, Hid. simpl negb. cbv iota.
  destruct (id <? 1) eqn:E1.
  - assert (Hnf : match fault with
                  | Some (refused _) | Some (reply_lost _ _) | None =>
                      @inl error Book ErrRecordNotFound
                  end = inl ErrRecordNotFound) by now destruct fault as [[msg|msg sc]|].
    rewrite Hnf. split.
    + intros b. split; [discriminate|]. intros (_ & Hge & _). lia.
    + split; [left; lia|reflexivity].
  - destruct fault as [[msg|msg]|].
    + split.
      * intros b. split; [discriminate|]. intros ([=] & _).
      * split; [discriminate|]. intros [Hlt|([=] & _)]. lia.
    + split.
      * intros b. split; [discriminate|]. intros ([=] & _).
      * split; [discriminate|]. intros [Hlt|([=] & _)]. lia.
    + destruct (books s !! id) as [row|] eqn:Er; simpl.
      * split.
        -- intros b. split.
           ++ intros [= <-]. repeat split; try lia. eauto.
           ++ intros (_ & _ & row' & [= <-] & ->). reflexivity.
        -- split; [discriminate|]. intros [Hlt|(_ & [=])]. lia.
      * split.
        -- intros b. split; [discriminate|]. intros (_ & _ & row & [=] & _).
        -- split; [right; auto|reflexivity].
Qed.

Lemma Get_characterised_witness :
  Get None sample_store 2 = inr (scan_book (2, sample_row "Dune" 1965 412 ["sf"; "novel"] 3))
  /\ Get None sample_store 0 = inl ErrRecordNotFound
  /\ Get None sample_store 9 = inl ErrRecordNotFound.
Proof.
  split; [|split].
  - apply (proj1 (Get_characterised None sample_store 2 eq_refl)).
    split; [reflexivity|]. split; [lia|]. eexists. split; reflexivity.
  - apply (proj2 (Get_characterised None sample_store 0 eq_refl)). left. lia.
  - apply (proj2 (Get_characterised None sample_store 9 eq_refl)). right.
    split; reflexivity.
Defined.

(** X2. A successful [Delete] removes the row with that id and nothing
    else: the row existed, a following [Get] of the id reports NotFound,
    and a [Get] of any other id answers as before. *)
Theorem Delete_then_Get (fault : option Fault) (s s' : Store) (id : Z) :
  Delete fault s id = (s', None) ->
  is_Some (books s !! id)
  /\ books s' = delete id (books s)
  /\ books_id_seq s' = books_id_seq s
  /\ Get None s' id = inl ErrRecordNotFound
  /\ forall id', id' <> id -> Get None s' id' = Get None s id'.
Proof.
  intros E. pose proof (Delete_ok _ _ _ _ E) as ->. revert E.
  rewrite Delete_cases. destruct (id <? 1) eqn:E1; [discriminate|].
  destruct (negb _) eqn:E64; [discriminate|].
  destruct (books s !! id) as [row|] eqn:Er; [|discriminate].
  intros [= <-]. simpl. repeat split; eauto.
  - rewrite Get_cases, E1, E64. simpl. now rewrite lookup_delete_eq.
  - intros id' Hne. rewrite !Get_cases. simpl. now rewrite lookup_delete_ne.
Qed.

Lemma Delete_then_Get_witness :
  exists s',
    Delete None sample_store 2 = (s', None)
    /\ Get None s' 2 = inl ErrRecordNotFound
    /\ Get None s' 1 = Get None sample_store 1.
Proof.
  pose (s' := with_books sample_store (delete 2 (books sample_store))).
  destruct (Delete_then_Get None sample_store s' 2 eq_refl) as (_ & _ & _ & Hg & Ho).
  exists s'. split; [reflexivity|]. split; [exact Hg|]. apply Ho. lia.
Defined.

(** X3. A [Delete] that fails reports NotFound exactly for an id below 1
    or, when the round trip goes through, an id with no row.  It leaves
    the store as it was whenever it reports NotFound, and whenever the
    statement did not run with its reply lost; if the reply was lost, the
    store is as it was or has lost the row with that id and nothing
    else. *)
Theorem Delete_failure (fault : option Fault) (s s' : Store) (id : Z) (e : error) :
  GoInt.is_int64 id = true ->
  Delete fault s id = (s', Some e) ->
  (e = ErrRecordNotFound <-> id < 1 \/ (fault = None /\ books s !! id = None))
  /\ (e = ErrRecordNotFound \/ lost fault = false -> s' = s)
  /\ (s' = s
      \/ (lost fault = true /\ is_Some (books s !! id)
          /\ s' = with_books s (delete id (books s)))).
Proof.
  intros Hid. rewrite Delete_fault, Delete_cases, Hid. simpl negb. cbv iota.
  destruct (id <? 1) eqn:E1.
  - assert (Hs : s' = s /\ e = ErrRecordNotFound ->
                 (e = ErrRecordNotFound <->
                  id < 1 \/ (fault = None /\ books s !! id = None))
                 /\ (e = ErrRecordNotFound \/ lost fault = false -> s' = s)
                 /\ (s' = s
                     \/ (lost fault = true /\ is_Some (books s !! id)
                         /\ s' = with_books s (delete id (books s))))).
    { intros [-> ->]. split; [split; [left; lia|reflexivity]|]. split; auto. }
    destruct fault as [[msg|msg sc]|]; intros [= <- <-]; apply Hs; auto.
  - destruct fault as [[msg|msg sc]|].
    + intros [= <- <-]. split; [|split; auto].
      split; [discriminate|]. intros [Hlt|([=] & _)]. lia.
    + intros [= <- <-]. split; [|split].
      * split; [discriminate|]. intros [Hlt|([=] & _)]. lia.
      * intros [[=]|[=]].
      * destruct (books s !! id) as [row|]; [right|left; reflexivity].
        split; [reflexivity|]. split; [eauto|reflexivity].
    + destruct (books s !! id) as [row|] eqn:Er; [discriminate|].
      intros [= <- <-]. split; [|split; auto]. split; [right; auto|reflexivity].
Qed.

Lemma Delete_failure_witness :
  Delete None sample_store 9 = (sample_store, Some ErrRecordNotFound)
  /\ Delete (Some (reply_lost "context deadline exceeded" false)) sample_store 2
     = (with_books sample_store (delete 2 (books sample_store)),
        Some (ErrStore (driver_failure "context deadline exceeded")))
  /\ (ErrRecordNotFound = ErrRecordNotFound <->
      9 < 1 \/ (@None Fault = None /\ books sample_store !! 9 = None)).
Proof.
  split; [reflexivity|]. split; [reflexivity|].
  exact (proj1 (Delete_failure None sample_store sample_store 9 ErrRecordNotFound
                  eq_refl eq_refl)).
Defined.

(** X4. A successful [Insert] stores the book under the next value of the
    sequence, which was free, with the creation time of the server and
    version 1; a following [Get] of that id returns the very book the
    caller now holds; every other row is as before. *)
Theorem Insert_then_Get `{Postgres} (fault : option Fault) (now : Z) (s s' : Store)
    (book book' : Book) :
  1 <= books_id_seq s ->
  Insert fault now s book = (s', book', None) ->
  ID book' = books_id_seq s /\ Created book' = now /\ Version book' = 1
  /\ Title book' = Title book /\ Year book' = Year book
  /\ Pages book' = Pages book /\ Genres book' = Genres book
  /\ books s !! ID book' = None
  /\ Get None s' (ID book') = inr book'
  /\ books_id_seq s' = books_id_seq s + 1
  /\ forall id', id' <> ID book' -> books s' !! id' = books s !! id'.
Proof.
  intros Hseq E. pose proof (Insert_ok _ _ _ _ _ _ E) as ->. revert E.
  rewrite Insert_cases.
  destruct (bind _); [discriminate|].
  destruct (GoInt.MaxInt64 <? books_id_seq s) eqn:Emax; [discriminate|].
  destruct (Genres book) as [g|] eqn:Eg; [|discriminate].
  destruct (books s !! books_id_seq s) eqn:Ef; [discriminate|].
  simpl. intros [= <- <-]. simpl. repeat split; auto.
  - rewrite Get_cases. simpl.
    replace (books_id_seq s <? 1) with false by lia.
    replace (GoInt.is_int64 (books_id_seq s)) with true
      by (unfold GoInt.is_int64, GoInt.MinInt64, GoInt.MaxInt64 in *; lia).
    simpl. rewrite lookup_insert_eq. reflexivity.
  - intros id' Hne. now rewrite lookup_insert_ne.
Qed.

Lemma Insert_then_Get_witness :
  exists s' book',
    Insert None 1700000100 sample_store (sample_book 0) = (s', book', None)
    /\ ID book' = 5 /\ Version book' = 1
    /\ Get None s' 5 = inr book'.
Proof.
  pose (res := Insert None 1700000100 sample_store (sample_book 0)).
  destruct (Insert_then_Get (H := postgres_C) None 1700000100 sample_store res.1.1 (sample_book 0) res.1.2
              ltac:(simpl; lia) eq_refl)
    as (Hid & _ & Hv & _ & _ & _ & _ & _ & Hg & _).
  exists res.1.1, res.1.2. split; [reflexivity|]. split; [exact Hid|].
  split; [exact Hv|exact Hg].
Defined.

(** X5. [Insert] never removes or overwrites a row: whatever it returns,
    every row stored before is stored unchanged after.  When it fails, the
    rows are exactly those stored before and the caller's book is
    untouched, unless the statement ran and its reply was lost. *)
Theorem Insert_keeps_rows `{Postgres} (fault : option Fault) (now : Z) (s s' : Store)
    (book book' : Book) (err : option error) :
  Insert fault now s book = (s', book', err) ->
  (forall id row, books s !! id = Some row -> books s' !! id = Some row)
  /\ (err <> None -> lost fault = false -> books s' = books s /\ book' = book).
Proof.
  assert (HN : forall s1 b1 e1,
            Insert None now s book = (s1, b1, e1) ->
            (forall id row, books s !! id = Some row -> books s1 !! id = Some row)
            /\ (e1 <> None -> books s1 = books s /\ b1 = book)).
  { intros s1 b1 e1. rewrite Insert_cases.
    destruct (bind _); [intros [= <- <- <-]; auto|].
    destruct (GoInt.MaxInt64 <? books_id_seq s); [intros [= <- <- <-]; auto|].
    destruct (Genres book) as [g|]; [|intros [= <- <- <-]; auto].
    destruct (books s !! books_id_seq s) eqn:Ef; [intros [= <- <- <-]; auto|].
    simpl. intros [= <- <- <-]. split; [|congruence].
    intros id row Hr. simpl. rewrite lookup_insert_ne; [assumption|]. congruence. }
  rewrite Insert_fault. destruct fault as [[msg|msg sc]|].
  - intros [= <- <- <-]. auto.
  - destruct (Insert None now s book) as [[s1 b1] e1] eqn:E1.
    destruct (HN _ _ _ eq_refl) as [Hkeep _].
    intros [= <- <- <-]. split; [exact Hkeep|]. intros _ [=].
  - intros E. destruct (HN _ _ _ E) as [Hkeep Hfail]. split; [exact Hkeep|].
    intros Herr _. exact (Hfail Herr).
Qed.

Lemma Insert_keeps_rows_witness :
  exists s',
    Insert None 1700000100 sample_store
      {| ID := 0; Created := 0; Title := "Solaris"; Year := 1961; Pages := 204;
         Genres := None; Version := 0 |}
    = (s', {| ID := 0; Created := 0; Title := "Solaris"; Year := 1961; Pages := 204;
              Genres := None; Version := 0 |}, Some (ErrStore (pq_Error "23502")))
    /\ books s' = books sample_store
    /\ books s' !! 2 = Some (sample_row "Dune" 1965 412 ["sf"; "novel"] 3).
Proof.
  pose (b := {| ID := 0; Created := 0; Title := "Solaris"; Year := 1961; Pages := 204;
                Genres := None; Version := 0 |}).
  pose (res := Insert None 1700000100 sample_store b).
  destruct (Insert_keeps_rows (H := postgres_C) None 1700000100 sample_store res.1.1 b res.1.2 res.2 eq_refl)
    as [Hkeep Hfail].
  exists res.1.1. split; [reflexivity|].
  split; [exact (proj1 (Hfail ltac:(discriminate) eq_refl))|].
  apply Hkeep. reflexivity.
Defined.

(** X6. After a successful [Update], [Get] of the same id returns the
    book the caller now holds, with the creation time of the stored row,
    which [Update] does not touch; every other row is as before. *)
Theorem Update_then_Get `{Postgres} (fault : option Fault) (s s' : Store)
    (book book' : Book) :
  1 <= ID book ->
  Update fault s book = (s', book', None) ->
  exists r,
    books s !! ID book = Some r
    /\ Get None s' (ID book) = inr (set_Created book' (row_created r))
    /\ books_id_seq s' = books_id_seq s
    /\ forall id', id' <> ID book -> books s' !! id' = books s !! id'.
Proof.
  intros Hid E. pose proof (Update_ok _ _ _ _ _ E) as ->. revert E.
  rewrite Update_cases.
  destruct (bind (update_params book)) eqn:Eb; [discriminate|].
  destruct (books s !! ID book) as [r|] eqn:Er; [|discriminate].
  destruct (row_version r =? Version book); [|discriminate].
  destruct (Genres book) as [g|] eqn:Eg; [|discriminate].
  destruct (negb (GoInt.is_int32 _)); [discriminate|].
  intros [= <- <-]. exists r. split; [reflexivity|]. simpl.
  split; [|split; [reflexivity|]].
  - rewrite Get_cases. simpl.
    replace (ID book <? 1) with false by lia.
    assert (H64 : GoInt.is_int64 (ID book) = true).
    { assert (Hb : binds book = true) by (unfold binds; now rewrite Eb).
      now apply binds_spec in Hb as (_ & _ & _ & _ & Hb & _). }
    rewrite H64. simpl. rewrite lookup_insert_eq. simpl.
    unfold scan_book, set_Created, set_Version. simpl. now rewrite Eg.
  - intros id' Hne. now rewrite lookup_insert_ne.
Qed.

Lemma Update_then_Get_witness :
  exists s',
    Update None sample_store (sample_book 3) = (s', sample_book 4, None)
    /\ Get None s' 2 = inr (sample_book 4).
Proof.
  pose (res := Update None sample_store (sample_book 3)).
  destruct (Update_then_Get (H := postgres_C) None sample_store res.1.1 (sample_book 3) (sample_book 4)
              ltac:(simpl; lia) eq_refl) as (r & Hr & Hg & _).
  exists res.1.1. split; [reflexivity|].
  injection Hr as <-. exact Hg.
Defined.

(** X7. Of two updates prepared from the same version of a record, at
    most one goes through: once the first has succeeded, the second fails
    and changes neither the store nor its book, whatever happens to its
    round trip.  Its error is EditConflict when the round trip goes
    through and the server accepts its parameters, and an error of the
    store otherwise. *)
Theorem Update_second_writer_conflicts `{Postgres} (fault fault2 : option Fault)
    (s s1 : Store) (b1 b1' b2 : Book) :
  ID b2 = ID b1 -> Version b2 = Version b1 ->
  Update fault s b1 = (s1, b1', None) ->
  exists e,
    Update fault2 s1 b2 = (s1, b2, Some e)
    /\ (fault2 = None /\ binds b2 = true -> e = ErrEditConflict)
    /\ (~ (fault2 = None /\ binds b2 = true) -> exists se, e = ErrStore se).
Proof.
  intros Hid Hv E. pose proof (Update_ok _ _ _ _ _ E) as ->. revert E.
  rewrite Update_cases.
  destruct (bind (update_params b1)); [discriminate|].
  destruct (books s !! ID b1) as [r|] eqn:Er; [|discriminate].
  destruct (row_version r =? Version b1) eqn:Ev; [|discriminate].
  destruct (Genres b1) as [g|]; [|discriminate].
  destruct (negb (GoInt.is_int32 _)); [discriminate|].
  intros [= <- <-].
  assert (Hst : Update None
                  (with_books s (<[ID b1 := updated_row r b1 g]> (books s))) b2
                = (with_books s (<[ID b1 := updated_row r b1 g]> (books s)), b2,
                   Some match bind (update_params b2) with
                        | Some sqlstate => ErrStore (pq_Error sqlstate)
                        | None => ErrEditConflict
                        end)).
  { apply (Update_stale _ b2 (updated_row r b1 g)).
    - rewrite Hid. simpl. now rewrite lookup_insert_eq.
    - simpl. lia. }
  rewrite Update_fault, Hst. unfold binds.
  destruct (bind (update_params b2)) as [sqlstate|];
    destruct fault2 as [[msg|msg [|]]|]; cbn [fst snd]; eexists;
    (split; [reflexivity|]);
    (split; [intros [Hf Hb]; try discriminate; reflexivity|]);
    intros Hn; eauto; now destruct Hn.
Qed.

Lemma Update_second_writer_conflicts_witness :
  exists s1,
    Update None sample_store (sample_book 3) = (s1, sample_book 4, None)
    /\ Update None s1 (set_Created (sample_book 3) 0)
       = (s1, set_Created (sample_book 3) 0, Some ErrEditConflict).
Proof.
  pose (res := Update None sample_store (sample_book 3)).
  exists res.1.1. split; [reflexivity|].
  destruct (Update_second_writer_conflicts (H := postgres_C) None None sample_store res.1.1 (sample_book 3)
              (sample_book 4) (set_Created (sample_book 3) 0) eq_refl eq_refl eq_refl)
    as (e & He & Hc & _).
  rewrite He. now rewrite (Hc (conj eq_refl eq_refl)).
Defined.

Section ListingMore.
Context `{Postgres}.

Lemma elem_of_matching_rows s title genres (x : Z * Row) :
  x ∈ matching_rows s title genres <->
  books s !! x.1 = Some x.2 /\ matches title genres x = true.
Proof.
  unfold matching_rows. rewrite list_elem_of_In, filter_In, <- list_elem_of_In.
  destruct x as [id row]. now rewrite elem_of_map_to_list.
Qed.

(** X8. Every book that [GetAll] returns is a stored row that satisfies
    the condition of the listing; no id occurs twice; and there are at
    most PageSize books. *)
Theorem GetAll_returns_matching_rows fault s title genres f found meta :
  GetAll fault s title genres f = inr (found, meta) ->
  (forall b, b ∈ found ->
     exists row, books s !! ID b = Some row /\ b = scan_book (ID b, row)
                 /\ matches title genres (ID b, row) = true)
  /\ NoDup (ID <$> found)
  /\ Z.of_nat (List.length found) <= PageSize f.
Proof.
  intros E. apply GetAll_cases in E as (c & _ & _ & Hl & _ & -> & _).
  set (desc := HasPrefix (Sort f) "-").
  destruct (listing_sorted s title genres c desc) as [_ Hperm].
  assert (Hsub : take (Z.to_nat (limit f)) (drop (Z.to_nat (offset f))
                   (listing s title genres c desc))
                 `sublist_of` listing s title genres c desc).
  { etrans; [apply sublist_take|apply sublist_drop]. }
  split; [|split].
  - intros b Hb. eapply elem_of_sublist in Hb; [|exact Hsub].
    rewrite Hperm in Hb. apply list_elem_of_fmap in Hb as ([id row] & -> & Hx).
    apply elem_of_matching_rows in Hx as [Hr Hm]. simpl in *. eauto.
  - eapply sublist_NoDup; [|apply fmap_sublist, Hsub].
    rewrite Hperm, <- list_fmap_compose.
    assert (Hfst : ID ∘ scan_book = fst (A := Z) (B := Row)) by reflexivity.
    rewrite Hfst. apply matching_rows_NoDup.
  - rewrite length_take. unfold limit in *. lia.
Qed.

(** X9. The total that [GetAll] reports is the number of matching rows
    when the requested page starts inside the listing, and 0 when it
    starts at or after its end (or holds no row at all). *)
Theorem GetAll_total_records fault s title genres f found meta :
  GetAll fault s title genres f = inr (found, meta) ->
  TotalRecords meta =
  if (offset f <? Z.of_nat (List.length (matching_rows s title genres)))
     && (0 <? limit f)
  then Z.of_nat (List.length (matching_rows s title genres))
  else 0.
Proof.
  intros E. apply GetAll_cases in E as (c & _ & _ & Hl & Ho & -> & ->).
  set (desc := HasPrefix (Sort f) "-").
  destruct (listing_sorted s title genres c desc) as [_ Hperm].
  assert (Hlen : List.length (listing s title genres c desc)
                 = List.length (matching_rows s title genres)).
  { rewrite Hperm. apply length_fmap. }
  set (n := List.length (matching_rows s title genres)) in *.
  destruct (take _ _) as [|b rest] eqn:Et.
  - assert (Hz : List.length (take (Z.to_nat (limit f))
                   (drop (Z.to_nat (offset f)) (listing s title genres c desc))) = 0%nat)
      by now rewrite Et.
    rewrite length_take, length_drop, Hlen in Hz.
    unfold calculateMetadata. simpl.
    destruct (_ && _) eqn:Eb; [|reflexivity]. lia.
  - assert (Hz : List.length (take (Z.to_nat (limit f))
                   (drop (Z.to_nat (offset f)) (listing s title genres c desc)))
                 = S (List.length rest)) by now rewrite Et.
    rewrite length_take, length_drop, Hlen in Hz.
    replace (_ && _) with true by lia.
    unfold calculateMetadata. destruct (_ =? 0) eqn:E0; simpl; lia.
Qed.

End ListingMore.

Lemma GetAll_returns_matching_rows_witness :
  GetAll None sample_store "" (Some ["novel"]) (sample_filters 1 "title")
  = inr (scan_book <$> [(2, sample_row "Dune" 1965 412 ["sf"; "novel"] 3);
                        (3, sample_row "Emma" 1815 474 ["novel"] 1);
                        (1, sample_row "Ulysses" 1922 730 ["novel"] 1)],
         {| CurrentPage := 1; PageSize_ := 20; FirstPage := 1; LastPage := 1;
            TotalRecords := 3 |})
  /\ NoDup [2; 3; 1].
Proof.
  split; [reflexivity|].
  exact (proj1 (proj2 (GetAll_returns_matching_rows (H := postgres_C) None sample_store ""
                         (Some ["novel"]) (sample_filters 1 "title") _ _ eq_refl))).
Defined.

Lemma GetAll_total_records_witness :
  exists found meta,
    GetAll None sample_store "" (Some ["novel"]) (sample_filters 1 "title")
    = inr (found, meta)
    /\ TotalRecords meta = 3.
Proof.
  pose (found := scan_book <$> [(2, sample_row "Dune" 1965 412 ["sf"; "novel"] 3);
                                (3, sample_row "Emma" 1815 474 ["novel"] 1);
                                (1, sample_row "Ulysses" 1922 730 ["novel"] 1)]).
  pose (meta := {| CurrentPage := 1; PageSize_ := 20; FirstPage := 1; LastPage := 1;
                   TotalRecords := 3 |}).
  exists found, meta. split; [reflexivity|].
  exact (GetAll_total_records (H := postgres_C) None sample_store "" (Some ["novel"])
           (sample_filters 1 "title") found meta eq_refl).
Defined.

(** ** More about validation *)

Lemma Check_Valid v ok key message :
  validator.Valid (validator.Check v ok key message) = validator.Valid v && ok.
Proof.
  unfold validator.Check. destruct ok; [now rewrite andb_true_r|].
  rewrite andb_false_r. eapply Valid_lookup. simpl. apply lookup_insert_eq.
Qed.

Lemma Unique_NoDup (l : list string) : validator.Unique l = true <-> NoDup l.
Proof.
  induction l as [|x l IH]; simpl.
  - split; [constructor|reflexivity].
  - rewrite andb_true_iff, negb_true_iff, IH, NoDup_cons.
    assert (Hx : existsb (String.eqb x) l = false <-> x ∉ l).
    { rewrite <- not_true_iff_false, existsb_exists, list_elem_of_In.
      split; intros Hn Hin; apply Hn.
      - exists x. split; [assumption|apply String.eqb_refl].
      - destruct Hin as (y & Hy & Exy). apply String.eqb_eq in Exy. now subst y. }
    now rewrite Hx.
Qed.

(** X10. A book passes [ValidateBook] exactly when its title is not empty
    and has at most 500 bytes, its year lies between 1888 and the current
    year, its page count is positive, and its genres are a non-nil list of
    one to five pairwise distinct values. *)
Theorem ValidateBook_valid_iff (current_year : Z) (book : Book) :
  valid_book current_year book <->
  Title book <> "" /\ len (Title book) <= 500
  /\ 1888 <= Year book <= GoInt.wrap32 current_year
  /\ 0 < Pages book
  /\ exists g, Genres book = Some g /\ (1 <= List.length g <= 5)%nat /\ NoDup g.
Proof.
  unfold valid_book, ValidateBook. rewrite !Check_Valid.
  change (validator.Valid validator.New) with true.
  rewrite !andb_true_iff, !negb_true_iff, String.eqb_neq, Unique_NoDup.
  destruct (Genres book) as [g|]; simpl.
  - split.
    + intros Hall.
      repeat match goal with
             | Hc : _ /\ _ |- _ => destruct Hc
             end.
      repeat split; auto; try lia. exists g. repeat split; auto; lia.
    + intros (Ht & Hl & Hy & Hp & g' & [= <-] & Hn & Hu).
      repeat split; auto; lia.
  - split.
    + intros Hall.
      repeat match goal with
             | Hc : _ /\ _ |- _ => destruct Hc
             end.
      discriminate.
    + intros (_ & _ & _ & _ & g & [=] & _).
Qed.

Lemma ValidateBook_valid_iff_witness :
  valid_book 2025 (sample_book 3)
  /\ ~ valid_book 2025 (set_Version {| ID := 2; Created := 0; Title := "Dune"; Year := 1965;
                                       Pages := 412; Genres := Some ["sf"; "sf"];
                                       Version := 3 |} 3).
Proof.
  split.
  - apply (proj2 (ValidateBook_valid_iff 2025 (sample_book 3))).
    split; [discriminate|]. split; [vm_compute; discriminate|].
    split; [vm_compute; split; discriminate|]. split; [reflexivity|].
    exists ["sf"]. split; [reflexivity|]. split; [simpl; lia|].
    apply NoDup_singleton.
  - intros Hv.
    apply (proj1 (ValidateBook_valid_iff 2025 _)) in Hv
      as (_ & _ & _ & _ & g & [= <-] & _ & Hnd).
    apply NoDup_cons in Hnd as [Hnot _]. apply Hnot. left.
Defined.

Lemma Check_is_Some v ok key message :
  is_Some (validator.Errors (validator.Check v ok key message) !! key) <->
  is_Some (validator.Errors v !! key) \/ ok = false.
Proof.
  rewrite Check_lookup_eq. destruct ok.
  - split; [now left|]. now intros [Hs|[=]].
  - split; [now right|eauto].
Qed.

(** X11. [ValidateBook] on a fresh validator files an error under a key
    exactly when one of the checks of that key fails, each key on its own:
    title for an empty title or one of more than 500 bytes, year for a year
    before 1888 or after the current year, pages for a count that is not
    positive, genres for a nil or empty list, one of more than five values
    or one with a duplicate; and it files nothing under any other key. *)
Theorem ValidateBook_fields (current_year : Z) (book : Book) :
  let errs := validator.Errors (ValidateBook current_year validator.New book) in
  (is_Some (errs !! "title") <-> Title book = "" \/ 500 < len (Title book))
  /\ (is_Some (errs !! "year") <->
      Year book < 1888 \/ GoInt.wrap32 current_year < Year book)
  /\ (is_Some (errs !! "pages") <-> Pages book <= 0)
  /\ (is_Some (errs !! "genres") <->
      match Genres book with
      | None => True
      | Some g => (List.length g = 0)%nat \/ (5 < List.length g)%nat \/ ~ NoDup g
      end)
  /\ forall key, key <> "title" -> key <> "year" -> key <> "pages" -> key <> "genres" ->
                 errs !! key = None.
Proof.
  cbv zeta. pose proof (ValidateBook_pages current_year book) as Hpages.
  assert (Hnew : forall key, ~ is_Some (validator.Errors validator.New !! key)).
  { intros key [m Hm]. unfold validator.New in Hm. simpl in Hm.
    now rewrite lookup_empty in Hm. }
  unfold ValidateBook in *. split; [|split; [|split; [|split]]].
  - rewrite !(Check_lookup_ne _ _ "genres"), !(Check_lookup_ne _ _ "pages"),
      !(Check_lookup_ne _ _ "year") by discriminate.
    rewrite !Check_is_Some, negb_false_iff, String.eqb_eq, Z.leb_gt.
    specialize (Hnew "title"). tauto.
  - rewrite !(Check_lookup_ne _ _ "genres"), !(Check_lookup_ne _ _ "pages") by discriminate.
    rewrite !Check_is_Some.
    rewrite !(Check_lookup_ne _ _ "title") by discriminate.
    rewrite negb_false_iff, Z.eqb_eq, !Z.leb_gt.
    specialize (Hnew "year"). split; [|tauto].
    intros [[[Hs|H0]|H1]|H2]; [tauto|lia|lia|lia].
  - rewrite Hpages. destruct (0 <? Pages book) eqn:E.
    + split; [intros [m [=]]|lia].
    + split; [lia|eauto].
  - rewrite !Check_is_Some.
    rewrite !(Check_lookup_ne _ _ "pages"), !(Check_lookup_ne _ _ "year"),
      !(Check_lookup_ne _ _ "title") by discriminate.
    rewrite !Z.leb_gt. specialize (Hnew "genres").
    destruct (Genres book) as [g|]; simpl; [|tauto].
    assert (HU : validator.Unique g = false <-> ~ NoDup g)
      by (rewrite <- not_true_iff_false, Unique_NoDup; tauto).
    rewrite HU. split.
    + intros [[[[Hs|[=]]|Hl]|Hl]|Hu]; [tauto|left; lia|right; left; lia|tauto].
    + intros [Hl|[Hl|Hu]]; [left; left; right; lia|left; right; lia|now right].
  - intros key H1 H2 H3 H4.
    rewrite !(Check_lookup_ne _ _ "genres"), !(Check_lookup_ne _ _ "pages"),
      !(Check_lookup_ne _ _ "year"), !(Check_lookup_ne _ _ "title") by assumption.
    apply lookup_empty.
Qed.

Lemma ValidateBook_fields_witness :
  let errs := validator.Errors
                (ValidateBook 2025 validator.New
                   {| ID := 0; Created := 0; Title := "Dune"; Year := 0; Pages := -5;
                      Genres := Some ["sf"]; Version := 0 |}) in
  ~ is_Some (errs !! "title") /\ is_Some (errs !! "year") /\ is_Some (errs !! "pages")
  /\ ~ is_Some (errs !! "genres") /\ errs !! "version" = None.
Proof.
  intros errs.
  destruct (ValidateBook_fields 2025
              {| ID := 0; Created := 0; Title := "Dune"; Year := 0; Pages := -5;
                 Genres := Some ["sf"]; Version := 0 |})
    as (Ht & Hy & Hp & Hg & Ho).
  split; [|split; [|split; [|split]]].
  - intros Hs. apply Ht in Hs as [[=]|Hl]. vm_compute in Hl. discriminate.
  - apply Hy. left. simpl. lia.
  - apply Hp. simpl. lia.
  - intros Hs.
    apply Hg in Hs as [Hl|[Hl|Hu]];
      [simpl in Hl; lia|simpl in Hl; lia|apply Hu, NoDup_singleton].
  - apply Ho; discriminate.
Defined.

(** ** More about the handlers *)

(** X12. [readID] accepts exactly the decimal numerals (optional sign,
    leading zeros allowed) of the integers from 1 to the largest int64. *)
Theorem readID_accepts (r : Request) (id : Z) :
  readID r = Some id <-> decimal_of (param_id r) id /\ 1 <= id <= GoInt.MaxInt64.
Proof.
  unfold readID. split.
  - destruct (strconv.ParseInt (param_id r)) as [e|i] eqn:E; [discriminate|].
    destruct (i <? 1) eqn:Ei; [discriminate|]. intros [= <-].
    apply ParseInt_spec in E as [Hd Hr]. apply is_int64_spec in Hr.
    repeat split; auto; lia.
  - intros (Hd & H1 & Hmax).
    assert (E : strconv.ParseInt (param_id r) = inr id).
    { apply ParseInt_spec. split; [assumption|]. apply is_int64_spec.
      unfold GoInt.MinInt64, GoInt.MaxInt64 in *. lia. }
    rewrite E. now replace (id <? 1) with false by lia.
Qed.

Lemma readID_accepts_witness :
  readID {| param_id := "+007"; X_Expected_Version := ""; body := inl "" |} = Some 7
  /\ readID {| param_id := "0"; X_Expected_Version := ""; body := inl "" |} <> Some 0.
Proof.
  split.
  - apply (proj2 (readID_accepts _ 7)). split; [|vm_compute; split; discriminate].
    exists "+", "007". split; [reflexivity|]. split; [now right; left|].
    split; [discriminate|]. split; reflexivity.
  - intros E. apply (proj1 (readID_accepts _ 0)) in E as (_ & Hge & _). lia.
Defined.

(** X13. [getBookHandler] answers 200 with the stored record exactly when
    the id parameter is accepted and a row with that id exists (and the
    round trip succeeds); it answers 404 exactly when the parameter is refused
    or the row is missing; and 500 only on a failure of the driver. *)
Theorem getBookHandler_answers (fault : option Fault) (s : Store) (r : Request) :
  (forall b, getBookHandler fault s r = bookResponse b <->
             fault = None
             /\ exists id row, readID r = Some id /\ books s !! id = Some row
                               /\ b = scan_book (id, row))
  /\ (getBookHandler fault s r = notFoundResponse <->
      readID r = None
      \/ (fault = None /\ exists id, readID r = Some id /\ books s !! id = None))
  /\ (forall e, getBookHandler fault s r = serverErrorResponse e -> fault <> None).
Proof.
  unfold getBookHandler. destruct (readID r) as [id|] eqn:Eid.
  - destruct (readID_range r id Eid) as [H1 H64]. rewrite Get_fault, Get_cases.
    replace (id <? 1) with false by lia. rewrite H64. simpl negb. cbv iota.
    destruct fault as [[msg|msg sc]|].
    + split; [|split].
      * intros b. split; [discriminate|]. intros ([=] & _).
      * split; [discriminate|]. intros [[=]|([=] & _)].
      * intros e _. discriminate.
    + split; [|split].
      * intros b. split; [discriminate|]. intros ([=] & _).
      * split; [discriminate|]. intros [[=]|([=] & _)].
      * intros e _. discriminate.
    + destruct (books s !! id) as [row|] eqn:Er.
      * split; [|split].
        -- intros b. split.
           ++ intros [= <-]. split; [reflexivity|]. eauto.
           ++ intros (_ & id' & row' & [= <-] & Hr & ->). congruence.
        -- split; [discriminate|]. intros [[=]|(_ & id' & [= <-] & Hr)]. congruence.
        -- discriminate.
      * split; [|split].
        -- intros b. split; [discriminate|].
           intros (_ & id' & row' & [= <-] & Hr & _). congruence.
        -- split; [|reflexivity]. intros _. right. eauto.
        -- discriminate.
  - split; [|split].
    + intros b. split; [discriminate|]. intros (_ & id & row & [=] & _).
    + split; [auto|reflexivity].
    + discriminate.
Qed.

Lemma getBookHandler_answers_witness :
  getBookHandler None sample_store (sample_request "")
  = bookResponse (scan_book (2, sample_row "Dune" 1965 412 ["sf"; "novel"] 3))
  /\ getBookHandler None sample_store
       {| param_id := "abc"; X_Expected_Version := ""; body := inl "" |}
     = notFoundResponse.
Proof.
  split.
  - apply (proj1 (getBookHandler_answers None sample_store (sample_request ""))).
    split; [reflexivity|]. exists 2, (sample_row "Dune" 1965 412 ["sf"; "novel"] 3).
    repeat split; reflexivity.
  - apply (proj1 (proj2 (getBookHandler_answers None sample_store _))).
    left. reflexivity.
Defined.

Lemma valid_book_fields current_year b1 b2 :
  Title b1 = Title b2 -> Year b1 = Year b2 -> Pages b1 = Pages b2 ->
  Genres b1 = Genres b2 ->
  valid_book current_year b1 -> valid_book current_year b2.
Proof.
  unfold valid_book, ValidateBook. now intros -> -> -> ->.
Qed.

(** X14. [createBookHandler] answers 201 only for a body that was read
    and passes validation; the book it returns has the fields of the body,
    the next id of the sequence (free until then), the creation time of the
    server and version 1, it is what the store now holds under that id, and
    the Location header is /books/<id>.  Any other answer is 400, 422 or
    500; on 400 and 422 the store is untouched; on 500 no stored row was
    changed or removed, and none was added unless the statement ran and its
    reply was lost. *)
Theorem createBookHandler_outcome `{Postgres} (current_year : Z)
    (fault : option Fault) (now : Z) (s s' : Store) (body : string + CreateInput)
    (resp : CreateResponse) :
  createBookHandler current_year fault now s body = (s', resp) ->
  (forall b loc, resp = createdResponse b loc ->
     exists inp,
       body = inr inp /\ valid_book current_year b
       /\ ID b = books_id_seq s /\ Created b = now /\ Version b = 1
       /\ Title b = cin_Title inp /\ Year b = cin_Year inp
       /\ Pages b = cin_Pages inp /\ Genres b = cin_Genres inp
       /\ loc = "/books/" ++ strconv.FormatInt (ID b)
       /\ books s !! ID b = None
       /\ exists row, books s' !! ID b = Some row /\ scan_book (ID b, row) = b)
  /\ (forall r0, resp = createFailed r0 ->
        (status r0 = 400 \/ status r0 = 422 \/ status r0 = 500)
        /\ (status r0 <> 500 -> s' = s)
        /\ (forall id row, books s !! id = Some row -> books s' !! id = Some row)
        /\ (lost fault = false -> books s' = books s)).
Proof.
  unfold createBookHandler. destruct body as [msg|inp].
  { intros [= <- <-]. split; [discriminate|]. intros r0 [= <-]. simpl.
    repeat split; auto. }
  set (book := {| ID := 0; Created := 0; Title := cin_Title inp; Year := cin_Year inp;
                  Pages := cin_Pages inp; Genres := cin_Genres inp; Version := 0 |}).
  destruct (negb (validator.Valid _)) eqn:Ev.
  { intros [= <- <-]. split; [discriminate|]. intros r0 [= <-]. simpl.
    repeat split; auto. }
  apply negb_false_iff in Ev.
  destruct (Insert fault now s book) as [[s1 b1] [e|]] eqn:EI.
  - intros [= <- <-]. split; [discriminate|]. intros r0 [= <-]. simpl.
    split; [auto|]. split; [congruence|].
    destruct (Insert_effect _ _ _ _ _ _ _ EI)
      as [[Hs _]|(g & Hg & Hf & Hs & [[=]|(Hl & _)])].
    + rewrite Hs. auto.
    + split.
      * intros id row Hr. rewrite Hs, lookup_insert_ne; [assumption|]. congruence.
      * congruence.
  - pose proof (Insert_ok _ _ _ _ _ _ EI) as ->. rewrite Insert_cases in EI.
    destruct (bind _); [discriminate|].
    destruct (GoInt.MaxInt64 <? books_id_seq s); [discriminate|].
    cbv zeta in EI. destruct (Genres book) as [g|] eqn:Eg; [|discriminate].
    destruct (books s !! books_id_seq s) eqn:Ef; [discriminate|].
    injection EI as <- <-.
    intros [= <- <-]. split; [|discriminate].
    intros b loc [= <- <-]. exists inp. simpl in *.
    repeat split; auto.
    + eapply valid_book_fields; [| | | |exact Ev]; simpl; auto.
    + rewrite lookup_insert_eq. eexists. split; reflexivity.
Qed.

Lemma createBookHandler_outcome_witness :
  exists s' b,
    createBookHandler 2025 None 1700000100 sample_store (inr sample_create)
    = (s', createdResponse b "/books/5")
    /\ ID b = 5 /\ Version b = 1 /\ Title b = "Solaris"
    /\ exists row, books s' !! 5 = Some row /\ scan_book (5, row) = b.
Proof.
  pose (res := createBookHandler 2025 None 1700000100 sample_store (inr sample_create)).
  pose (b := {| ID := 5; Created := 1700000100; Title := "Solaris"; Year := 1961;
                Pages := 204; Genres := Some ["sf"]; Version := 1 |}).
  destruct (proj1 (createBookHandler_outcome (H := postgres_C) 2025 None 1700000100
                     sample_store res.1
                     (inr sample_create) res.2 eq_refl) b "/books/5" eq_refl)
    as (inp & _ & _ & Hid & _ & Hv & Ht & _ & _ & _ & _ & _ & Hrow).
  exists res.1, b. split; [reflexivity|]. split; [exact Hid|]. split; [exact Hv|].
  split; [reflexivity|exact Hrow].
Defined.

(** X15. After [deleteBookHandler] has answered 200, [getBookHandler]
    answers 404 for the same request, and answers every request for another
    id as it did before. *)
Theorem deleteBookHandler_then_get (fault : option Fault) (s s' : Store)
    (r : Request) (msg : string) :
  deleteBookHandler fault s r = (s', inr msg) ->
  msg = "book successfully deleted"
  /\ getBookHandler None s' r = notFoundResponse
  /\ forall r', readID r' <> readID r ->
                getBookHandler None s' r' = getBookHandler None s r'.
Proof.
  unfold deleteBookHandler, getBookHandler.
  destruct (readID r) as [id|] eqn:Eid; [|discriminate].
  destruct (readID_range r id Eid) as [H1 H64].
  destruct (Delete fault s id) as [s1 [e|]] eqn:ED; [destruct e; discriminate|].
  pose proof (Delete_ok _ _ _ _ ED) as ->. rewrite Delete_cases in ED.
  replace (id <? 1) with false in ED by lia.
  rewrite H64 in ED. simpl negb in ED. cbv iota in ED.
  destruct (books s !! id) as [row|] eqn:Er; [|discriminate].
  injection ED as <-.
  intros [= <- <-]. split; [reflexivity|]. split.
  - rewrite Get_cases. replace (id <? 1) with false by lia. rewrite H64. simpl.
    now rewrite lookup_delete_eq.
  - intros r' Hne. destruct (readID r') as [id'|]; [|reflexivity].
    rewrite !Get_cases. simpl. rewrite lookup_delete_ne by congruence. reflexivity.
Qed.

Lemma deleteBookHandler_then_get_witness :
  exists s',
    deleteBookHandler None sample_store (sample_request "")
    = (s', inr "book successfully deleted")
    /\ getBookHandler None s' (sample_request "") = notFoundResponse.
Proof.
  pose (res := deleteBookHandler None sample_store (sample_request "")).
  exists res.1. split; [reflexivity|].
  exact (proj1 (proj2 (deleteBookHandler_then_get None sample_store res.1
                         (sample_request "") "book successfully deleted" eq_refl))).
Defined.

Section HandlerInvariants.
Context `{Postgres}.

(** X16. No handler breaks the validity of the store: if every stored
    row passes [ValidateBook] (also after what concurrent requests did), it
    still does after [createBookHandler], [updateBookHandler] and
    [deleteBookHandler], whatever they answer. *)
Theorem handlers_keep_store_valid (current_year : Z) :
  (forall fault now s body s' resp,
     store_valid current_year s ->
     createBookHandler current_year fault now s body = (s', resp) ->
     store_valid current_year s')
  /\ (forall get_fault update_fault others s r s' resp trace,
        store_valid current_year s -> store_valid current_year (others s) ->
        updateBookHandler current_year get_fault update_fault others s r
        = (s', resp, trace) ->
        store_valid current_year s')
  /\ (forall fault s r s' resp,
        store_valid current_year s ->
        deleteBookHandler fault s r = (s', resp) ->
        store_valid current_year s').
Proof.
  split; [|split].
  - intros fault now s body s' resp Hs. unfold createBookHandler.
    destruct body as [msg|inp]; [now intros [= <- <-]|].
    destruct (negb (validator.Valid _)) eqn:Ev; [now intros [= <- <-]|].
    apply negb_false_iff in Ev.
    destruct (Insert fault now s _) as [[s1 b1] err] eqn:EI.
    assert (Hs1 : store_valid current_year s1).
    { destruct (Insert_effect _ _ _ _ _ _ _ EI) as [[Hb _]|(g & Hg & Hf & Hb & _)];
        intros id row; rewrite Hb; [apply Hs|].
      destruct (decide (id = books_id_seq s)) as [-> | Hne].
      - rewrite lookup_insert_eq. intros [= <-].
        eapply valid_book_fields; [| | | |exact Ev]; simpl; auto.
      - rewrite lookup_insert_ne by congruence. apply Hs. }
    destruct err; now intros [= <- <-].
  - intros get_fault update_fault others s r s' resp trace Hs Ho.
    unfold updateBookHandler.
    destruct (readID r) as [id|]; [|now intros [= <- <- <-]].
    destruct (Get get_fault s id) as [[]|book]; try (now intros [= <- <- <-]).
    destruct (_ && _); [now intros [= <- <- <-]|].
    destruct (body r) as [msg|inp]; [now intros [= <- <- <-]|].
    destruct (negb (validator.Valid _)) eqn:Ev; [now intros [= <- <- <-]|].
    apply negb_false_iff in Ev.
    destruct (Update update_fault (others s) _) as [[s1 b1] err] eqn:EU.
    assert (Hs1 : store_valid current_year s1).
    { destruct (Update_effect _ _ _ _ _ _ EU)
        as [[-> _]|(r0 & g & Hr & Hv & Hg & -> & _)]; [exact Ho|].
      intros id' row. unfold with_books. cbn [books].
      destruct (decide (id' = ID (merge book inp))) as [-> | Hne].
      - rewrite lookup_insert_eq. intros [= <-].
        eapply valid_book_fields; [| | | |exact Ev];
          unfold scan_book, updated_row; cbn [fst snd Title Year Pages Genres
            row_title row_year row_pages row_genres]; auto.
      - rewrite lookup_insert_ne by congruence. apply Ho. }
    destruct err as [[]|]; now intros [= <- <- <-].
  - intros fault s r s' resp Hs. unfold deleteBookHandler.
    destruct (readID r) as [id|]; [|now intros [= <- <-]].
    destruct (Delete fault s id) as [s1 err] eqn:ED.
    assert (Hs1 : store_valid current_year s1).
    { revert ED. rewrite Delete_fault, Delete_cases.
      assert (HN : store_valid current_year
                     (if id <? 1 then (s, Some ErrRecordNotFound)
                      else if negb (GoInt.is_int64 id)
                           then (s, Some (ErrStore (pq_Error "22003")))
                           else match books s !! id with
                                | Some _ => (with_books s (delete id (books s)), None)
                                | None => (s, Some ErrRecordNotFound)
                                end).1).
      { destruct (id <? 1); [exact Hs|]. destruct (negb _); [exact Hs|].
        destruct (books s !! id); [|exact Hs].
        intros id' row. simpl. intros Hr.
        apply lookup_delete_Some in Hr as [_ Hr]. eapply Hs, Hr. }
      destruct fault as [[msg|msg sc]|]; intros E.
      - now injection E as <- _.
      - now injection E as <- _.
      - now rewrite E in HN. }
    destruct err as [[]|]; now intros [= <- <-].
Qed.

Ltac no_update :=
  simpl; split;
  [ intros _ _; now left
  | split;
    [ intros _; split; [reflexivity|]; intros b Hb; simpl in Hb;
      repeat (destruct Hb as [Hb|Hb]; [discriminate Hb|]); exact Hb
    | intros b Hb; exfalso; simpl in Hb;
      repeat (destruct Hb as [Hb|Hb]; [discriminate Hb|]); exact Hb ] ].

(** X17. [updateBookHandler] writes all or nothing.  Unless it answers
    200, or answers 500 after the reply of its [Update] was lost, the store
    is as it was (or as the concurrent requests left it); whenever it
    answers 400, 404 or 422 it has not called [Update] at all; and it calls
    [Update] only with a book that passes validation. *)
Theorem updateBookHandler_all_or_nothing
    current_year get_fault update_fault others s r s' resp trace :
  updateBookHandler current_year get_fault update_fault others s r = (s', resp, trace) ->
  (status resp <> 200 ->
   status resp <> 500 \/ lost update_fault = false ->
   s' = s \/ s' = others s)
  /\ (status resp = 400 \/ status resp = 404 \/ status resp = 422 ->
      s' = s /\ forall b, ~ In (EvUpdate b) trace)
  /\ (forall b, In (EvUpdate b) trace -> valid_book current_year b).
Proof.
  unfold updateBookHandler.
  destruct (readID r) as [id|]; [|intros [= <- <- <-]; no_update].
  destruct (Get get_fault s id) as [e|book];
    [destruct e; intros [= <- <- <-]; no_update|].
  destruct (_ && _); [intros [= <- <- <-]; no_update|].
  destruct (body r) as [msg|inp]; [intros [= <- <- <-]; no_update|].
  destruct (negb (validator.Valid _)) eqn:Ev; [intros [= <- <- <-]; no_update|].
  apply negb_false_iff in Ev.
  assert (Htr : forall b,
            In (EvUpdate b) [EvGet id; EvReadJSON; EvValidate (merge book inp);
                             EvUpdate (merge book inp)] ->
            valid_book current_year b).
  { intros b [[=]|[[=]|[[=]|[[= <-]|[]]]]]. exact Ev. }
  destruct (Update update_fault (others s) _) as [[s1 b1] err] eqn:EU.
  pose proof (Update_effect _ _ _ _ _ _ EU) as Heff.
  destruct err as [e|].
  - assert (Hstore : lost update_fault = false \/ e = ErrEditConflict ->
                     s1 = others s).
    { intros Hc.
      destruct Heff
        as [[-> _]|(r0 & g & _ & _ & _ & _ & [[=]|(Hl & msg & [= ->])])];
        [reflexivity|].
      destruct Hc as [Hc|[=]]. congruence. }
    destruct e; intros [= <- <- <-]; simpl;
      (split; [|split; [intros [Hc|[Hc|Hc]]; discriminate Hc|exact Htr]]);
      intros Hne Hcond; right; apply Hstore;
      first [ now right | destruct Hcond as [Hc|Hc]; [now destruct Hc|now left] ].
  - intros [= <- <- <-]. simpl.
    split; [intros Hc; now destruct Hc|].
    split; [intros [Hc|[Hc|Hc]]; discriminate Hc|exact Htr].
Qed.

End HandlerInvariants.

(** ** The query-string helpers *)

Lemma Join_cons p q rest sep :
  Join (p :: q :: rest) sep = p ++ sep ++ Join (q :: rest) sep.
Proof. reflexivity. Qed.

(** Joining the pieces of a split with the separator gives the string
    back. *)
Lemma Join_Split s sep : Join (Split s sep) (String sep EmptyString) = s.
Proof.
  induction s as [|a s IH]; [reflexivity|]. cbn [Split].
  pose proof (Split_nonempty s sep) as Hne.
  destruct (Ascii.eqb_spec a sep) as [-> | Ha].
  - destruct (Split s sep) as [|p rest] eqn:Es; [congruence|].
    rewrite Join_cons, IH. reflexivity.
  - destruct (Split s sep) as [|p rest] eqn:Es; [congruence|].
    destruct rest as [|q rest].
    + simpl in *. now rewrite IH.
    + rewrite Join_cons in *. rewrite append_cons. now rewrite IH.
Qed.

Lemma Split_pieces s sep : Forall (fun p => contains p sep = false) (Split s sep).
Proof.
  induction s as [|a s IH]; cbn [Split]; [repeat constructor|].
  pose proof (Split_nonempty s sep) as Hne.
  destruct (Ascii.eqb a sep) eqn:Ea.
  - constructor; [reflexivity|assumption].
  - destruct (Split s sep) as [|p rest]; [congruence|].
    apply Forall_cons in IH as [Hp Hrest]. constructor; [|assumption].
    simpl. now rewrite Ea, Hp.
Qed.

(** X18. [readCSV] gives the default for an absent or empty parameter.
    Otherwise it gives at least one piece, no piece contains a comma, and
    the pieces joined by commas are the parameter: nothing is trimmed or
    dropped, empty pieces included. *)
Theorem readCSV_pieces (qs : gmap string (list string)) (key : string)
    (defaultValue : list string) :
  (Values_Get qs key = "" -> readCSV qs key defaultValue = defaultValue)
  /\ (Values_Get qs key <> "" ->
      Join (readCSV qs key defaultValue) "," = Values_Get qs key
      /\ readCSV qs key defaultValue <> []
      /\ Forall (fun p => contains p "," = false) (readCSV qs key defaultValue)).
Proof.
  unfold readCSV. split.
  - intros ->. reflexivity.
  - intros Hne. apply String.eqb_neq in Hne. rewrite Hne.
    split; [apply Join_Split|]. split; [apply Split_nonempty|apply Split_pieces].
Qed.

Lemma readCSV_pieces_witness :
  readCSV sample_query "genres" [] = ["sf"; "novel"]
  /\ Join (readCSV sample_query "genres" []) "," = "sf,novel"
  /\ readCSV sample_query "title" [] = [].
Proof.
  destruct (readCSV_pieces sample_query "genres" []) as [_ Hsome].
  destruct (readCSV_pieces sample_query "title" []) as [Hnone _].
  split; [reflexivity|]. split.
  - exact (proj1 (Hsome ltac:(discriminate))).
  - exact (Hnone eq_refl).
Defined.

(** X19. [readInt] gives the default and leaves the validator alone for
    an absent or empty parameter; it gives the number and leaves the
    validator alone for a decimal numeral of an int64; for anything else it
    gives the default and the validator is no longer valid, with the
    message "must be an integer value" under the key unless the key had an
    error already. *)
Theorem readInt_cases (qs : gmap string (list string)) (key : string)
    (defaultValue : Z) (v : validator.Validator) :
  (Values_Get qs key = "" -> readInt qs key defaultValue v = (defaultValue, v))
  /\ (forall n, decimal_of (Values_Get qs key) n -> GoInt.is_int64 n = true ->
                readInt qs key defaultValue v = (n, v))
  /\ (Values_Get qs key <> "" ->
      (forall n, ~ (decimal_of (Values_Get qs key) n /\ GoInt.is_int64 n = true)) ->
      (readInt qs key defaultValue v).1 = defaultValue
      /\ validator.Valid (readInt qs key defaultValue v).2 = false
      /\ (validator.Errors v !! key = None ->
          validator.Errors (readInt qs key defaultValue v).2 !! key
          = Some "must be an integer value")).
Proof.
  unfold readInt, Atoi. split; [|split].
  - intros ->. reflexivity.
  - intros n Hd Hn.
    assert (E : strconv.ParseInt (Values_Get qs key) = inr n)
      by (apply ParseInt_spec; auto).
    rewrite E. destruct (String.eqb_spec (Values_Get qs key) "") as [E0|_]; [|reflexivity].
    rewrite E0 in E. discriminate.
  - intros Hne Hnot. apply String.eqb_neq in Hne. rewrite Hne.
    destruct (strconv.ParseInt (Values_Get qs key)) as [e|n] eqn:E.
    + simpl. unfold validator.AddError.
      destruct (validator.Errors v !! key) eqn:Ek.
      * split; [reflexivity|]. split; [eapply Valid_lookup, Ek|discriminate].
      * split; [reflexivity|]. split.
        -- eapply Valid_lookup. simpl. apply lookup_insert_eq.
        -- intros _. simpl. apply lookup_insert_eq.
    + exfalso. apply (Hnot n). now apply ParseInt_spec.
Qed.

Lemma readInt_cases_witness :
  readInt sample_query "page" 1 validator.New = (2, validator.New)
  /\ readInt sample_query "page_size" 20 validator.New = (20, validator.New)
  /\ validator.Errors (readInt sample_query "sort" 1 validator.New).2 !! "sort"
     = Some "must be an integer value".
Proof.
  destruct (readInt_cases sample_query "page" 1 validator.New) as (_ & Hnum & _).
  destruct (readInt_cases sample_query "page_size" 20 validator.New) as (Hempty & _).
  destruct (readInt_cases sample_query "sort" 1 validator.New) as (_ & _ & Hbad).
  split; [|split].
  - apply (Hnum 2); [|reflexivity].
    exists "", "2". split; [reflexivity|]. split; [now left|].
    split; [discriminate|]. split; reflexivity.
  - exact (Hempty eq_refl).
  - refine (proj2 (proj2 (Hbad ltac:(discriminate) _)) eq_refl).
    intros n [Hd Hn].
    assert (E : strconv.ParseInt "-year" = inr n) by (apply ParseInt_spec; auto).
    discriminate E.
Defined.

Lemma sample_valid_store_valid : store_valid 2025 sample_valid_store.
Proof.
  intros id row Hr. unfold sample_valid_store in Hr. cbn [books] in Hr.
  repeat (apply lookup_insert_Some in Hr as [[<- <-] | [_ Hr]]; [reflexivity|]).
  now apply lookup_empty_Some in Hr.
Qed.

Lemma handlers_keep_store_valid_witness :
  exists s' resp trace,
    updateBookHandler 2025 None None (fun s => s) sample_valid_store (sample_request "3")
    = (s', resp, trace)
    /\ status resp = 200
    /\ store_valid 2025 s'.
Proof.
  pose (res := updateBookHandler 2025 None None (fun s => s) sample_valid_store
                 (sample_request "3")).
  exists res.1.1, res.1.2, res.2. split; [reflexivity|]. split; [reflexivity|].
  exact (proj1 (proj2 (handlers_keep_store_valid (H := postgres_C) 2025))
           None None (fun s => s) sample_valid_store (sample_request "3")
           res.1.1 res.1.2 res.2 sample_valid_store_valid sample_valid_store_valid eq_refl).
Defined.

Lemma updateBookHandler_all_or_nothing_witness :
  let res := updateBookHandler 2025 None None (fun s => s) sample_store
               sample_bad_request in
  status res.1.2 = 422
  /\ res.1.1 = sample_store
  /\ forall b, ~ In (EvUpdate b) res.2.
Proof.
  intros res. split; [reflexivity|].
  apply (updateBookHandler_all_or_nothing (H := postgres_C) 2025 None None (fun s => s)
           sample_store sample_bad_request res.1.1 res.1.2 res.2 eq_refl).
  right; right; reflexivity.
Defined.

Section HandlerConflict.
Context `{Postgres}.

(** X20. No lost update through the handler: when a concurrent request
    has changed the version of the record (or removed the record) between
    this handler's [Get] and its [Update], the handler writes nothing and
    does not answer 200, although its own validation and precheck passed.
    It answers 409 when the round trip of its [Update] goes through and
    the server accepts the parameters, and 500 otherwise. *)
Theorem updateBookHandler_concurrent_change
    current_year update_fault others s r id row inp :
  readID r = Some id ->
  books s !! id = Some row ->
  X_Expected_Version r = "" \/
    X_Expected_Version r = strconv.FormatInt (row_version row) ->
  body r = inr inp ->
  valid_book current_year (merge (scan_book (id, row)) inp) ->
  (forall row2, books (others s) !! id = Some row2 ->
                row_version row2 <> row_version row) ->
  exists resp,
    updateBookHandler current_year None update_fault others s r
    = (others s, resp,
       [EvGet id; EvReadJSON; EvValidate (merge (scan_book (id, row)) inp);
        EvUpdate (merge (scan_book (id, row)) inp)])
    /\ (update_fault = None /\ binds (merge (scan_book (id, row)) inp) = true ->
        resp = editConflictResponse)
    /\ (~ (update_fault = None /\ binds (merge (scan_book (id, row)) inp) = true) ->
        exists e, resp = serverErrorResponse e).
Proof.
  intros Hid Hrow Hx Hbody Hvalid Hver. unfold updateBookHandler. rewrite Hid.
  destruct (readID_range r id Hid) as [H1 H64].
  rewrite (Get_found s id row H1 H64 Hrow), Hbody.
  assert (Hpre : negb (String.eqb (X_Expected_Version r) "")
                 && negb (String.eqb (strconv.FormatInt (Version (scan_book (id, row))))
                                     (X_Expected_Version r)) = false).
  { destruct Hx as [-> | ->]; [reflexivity|].
    simpl. rewrite String.eqb_refl. apply andb_false_r. }
  rewrite Hpre. cbv zeta. unfold valid_book in Hvalid. rewrite Hvalid. simpl negb. cbv iota.
  rewrite Update_fault, (Update_no_match (others s) (merge (scan_book (id, row)) inp)) by exact Hver.
  unfold binds.
  destruct (bind (update_params (merge (scan_book (id, row)) inp))) as [sqlstate|];
    destruct update_fault as [[msg|msg [|]]|]; cbn [fst snd]; eexists;
    (split; [reflexivity|]);
    (split; [intros [Hf Hb]; try discriminate; reflexivity|]);
    intros Hn; eauto; now destruct Hn.
Qed.

(** X21. Pages do not overlap and follow one another: for two requests
    that differ only in the page number, every book on the earlier page
    comes strictly before every book on the later page in the order of the
    listing. *)
Theorem GetAll_pages_in_order
    fault s title genres f1 f2 found1 meta1 found2 meta2 :
  Sort f2 = Sort f1 -> PageSize f2 = PageSize f1 ->
  1 <= Page f1 < Page f2 ->
  (Page f2 - 1) * PageSize f2 <= GoInt.MaxInt64 ->
  GetAll fault s title genres f1 = inr (found1, meta1) ->
  GetAll fault s title genres f2 = inr (found2, meta2) ->
  exists c,
    column_of_name (sortColumn f1) = Some c
    /\ forall b1 b2, b1 ∈ found1 -> b2 ∈ found2 ->
                     book_before c (HasPrefix (Sort f1) "-") b1 b2.
Proof.
  intros Hsort Hsize Hpage Hmax E1 E2.
  apply GetAll_cases in E1 as (c & _ & Hc & Hl1 & Ho1 & -> & _).
  apply GetAll_cases in E2 as (c2 & _ & Hc2 & Hl2 & Ho2 & -> & _).
  unfold sortColumn in Hc, Hc2. rewrite Hsort, Hc in Hc2. injection Hc2 as <-.
  rewrite Hsort. exists c. split; [exact Hc|].
  set (L := listing s title genres c (HasPrefix (Sort f1) "-")).
  destruct (listing_sorted s title genres c (HasPrefix (Sort f1) "-")) as [HL _].
  fold L in HL.
  unfold limit, offset, GoInt.wrap64, GoInt.MaxInt64 in *. rewrite Hsize in *.
  assert (Hn : 0 <= PageSize f1) by lia.
  assert (Hm1 : 0 <= (Page f1 - 1) * PageSize f1) by (apply Z.mul_nonneg_nonneg; lia).
  assert (Hm2 : (Page f1 - 1) * PageSize f1 + PageSize f1
                <= (Page f2 - 1) * PageSize f1) by nia.
  rewrite (Z.mod_small ((Page f1 - 1) * PageSize f1 + 9223372036854775808)) by lia.
  rewrite (Z.mod_small ((Page f2 - 1) * PageSize f1 + 9223372036854775808)) by lia.
  set (n := Z.to_nat (PageSize f1)).
  set (o1 := Z.to_nat ((Page f1 - 1) * PageSize f1 + 9223372036854775808
                       - 9223372036854775808)).
  set (o2 := Z.to_nat ((Page f2 - 1) * PageSize f1 + 9223372036854775808
                       - 9223372036854775808)).
  assert (Ho : (o1 + n <= o2)%nat) by (unfold o1, o2, n; lia).
  intros b1 b2 Hb1 Hb2.
  apply (StronglySorted_app_1_elem_of _ (take o2 L) (drop o2 L)).
  - now rewrite take_drop.
  - rewrite take_drop_commute in Hb1.
    eapply elem_of_sublist in Hb1; [|apply sublist_drop].
    replace (take (o1 + n) L) with (take (o1 + n) (take o2 L)) in Hb1
      by (rewrite take_take; f_equal; lia).
    eapply elem_of_sublist; [exact Hb1|apply sublist_take].
  - eapply elem_of_sublist; [exact Hb2|apply sublist_take].
Qed.

End HandlerConflict.

Lemma updateBookHandler_concurrent_change_witness :
  updateBookHandler 2025 None None sample_rival sample_store (sample_request "3")
  = (sample_rival sample_store, editConflictResponse,
     [EvGet 2; EvReadJSON;
      EvValidate (merge (scan_book (2, sample_row "Dune" 1965 412 ["sf"; "novel"] 3))
                        {| in_Title := Some "Dune (revised)"; in_Year := None;
                           in_Pages := None; in_Genres := None |});
      EvUpdate (merge (scan_book (2, sample_row "Dune" 1965 412 ["sf"; "novel"] 3))
                      {| in_Title := Some "Dune (revised)"; in_Year := None;
                         in_Pages := None; in_Genres := None |})]).
Proof.
  destruct (updateBookHandler_concurrent_change (H := postgres_C) 2025 None sample_rival
              sample_store (sample_request "3") 2
              (sample_row "Dune" 1965 412 ["sf"; "novel"] 3)
              {| in_Title := Some "Dune (revised)"; in_Year := None;
                 in_Pages := None; in_Genres := None |}
              eq_refl eq_refl (or_intror eq_refl) eq_refl eq_refl)
    as (resp & E & Hc & _).
  - intros row2 Hr. vm_compute in Hr. injection Hr as <-. discriminate.
  - rewrite E. now rewrite (Hc (conj eq_refl eq_refl)).
Defined.

Lemma GetAll_pages_in_order_witness :
  let f p := {| Page := p; PageSize := 2; Sort := "title";
                SortSafelist := listBooks_safelist |} in
  exists found1 found2 meta1 meta2,
    GetAll None sample_store "" (Some []) (f 1) = inr (found1, meta1)
    /\ GetAll None sample_store "" (Some []) (f 2) = inr (found2, meta2)
    /\ ID <$> found1 = [2; 3] /\ ID <$> found2 = [4; 1]
    /\ forall b1 b2, b1 ∈ found1 -> b2 ∈ found2 -> book_before col_title false b1 b2.
Proof.
  intros f.
  pose (r1 := GetAll None sample_store "" (Some []) (f 1)).
  pose (r2 := GetAll None sample_store "" (Some []) (f 2)).
  pose (found1 := scan_book <$> [(2, sample_row "Dune" 1965 412 ["sf"; "novel"] 3);
                                 (3, sample_row "Emma" 1815 474 ["novel"] 1)]).
  pose (found2 := scan_book <$> [(4, sample_row "The Waste Land" 1922 64 ["poetry"] 1);
                                 (1, sample_row "Ulysses" 1922 730 ["novel"] 1)]).
  pose (meta1 := {| CurrentPage := 1; PageSize_ := 2; FirstPage := 1; LastPage := 2;
                    TotalRecords := 4 |}).
  pose (meta2 := {| CurrentPage := 2; PageSize_ := 2; FirstPage := 1; LastPage := 2;
                    TotalRecords := 4 |}).
  destruct (GetAll_pages_in_order (H := postgres_C) None sample_store "" (Some [])
              (f 1) (f 2) found1 meta1 found2 meta2 eq_refl eq_refl
              ltac:(simpl; lia) ltac:(vm_compute; discriminate) eq_refl eq_refl)
    as (c & Hc & Hord).
  exists found1, found2, meta1, meta2.
  split; [reflexivity|]. split; [reflexivity|]. split; [reflexivity|].
  split; [reflexivity|].
  injection Hc as <-. exact Hord.
Defined.
